(** * connecdoku: [analyze_categories.py]

    A shallow embedding of the category analysis script and the proofs of
    the properties its specification states.

    The script reads a word -> categories dataset, inverts it into a
    category -> words index, keeps the categories with fewer than four
    words (two families of names excepted), sorts them by size, prints a
    report, writes the result as JSON and prints summary statistics.

    Python values are modelled as follows.
    - [str] is a sequence of Unicode code points, [list N].
    - [dict] (insertion ordered since Python 3.7) is an association list
      with the operations of the language: assignment to an existing key
      keeps its position, assignment to a new key appends.
    - [len] is [length]; integers that are lengths or counts are [nat].
    - [float] is the kernel's binary64 type.
    - [print] appends to the text of standard output, [open(p, "w")]
      replaces the content of a file; an uncaught exception ends the run
      and keeps the effects performed so far.  Standard output is a
      UTF-8 stream with the strict error handler: [print] raises
      [UnicodeEncodeError] on a text with a surrogate code point and
      prints nothing of it.  The text written to the file is ASCII; the
      failures of the file system are outside the model.
    - [json.load] at line 14 gives the dataset the analysis starts from;
      [json.dump] and [json.loads] are modelled after the encoder and the
      decoder of the standard library, on dictionaries of lists of
      strings, the shape of both files. *)

From Stdlib Require Import Ascii String.
From Stdlib Require Import List Bool Arith NArith ZArith Lia.
From Stdlib Require Import Sorted Permutation.
From Stdlib Require Import Floats Uint63 DecimalString.
Import ListNotations.

Set Implicit Arguments.

(** ** Strings *)

Definition str := list N.

(** A literal of the source, as its code points. *)
Definition py (s : string) : str := map N_of_ascii (list_ascii_of_string s).

Fixpoint str_eqb (a b : str) : bool :=
  match a, b with
  | [], [] => true
  | x :: a', y :: b' => N.eqb x y && str_eqb a' b'
  | _, _ => false
  end.

(** [s.startswith(prefix)] *)
Fixpoint startswith (s prefix : str) : bool :=
  match prefix, s with
  | [], _ => true
  | p :: prefix', c :: s' => N.eqb c p && startswith s' prefix'
  | _ :: _, [] => false
  end.

(** [sep.join(l)] *)
Fixpoint join (sep : str) (l : list str) : str :=
  match l with
  | [] => []
  | [x] => x
  | x :: l' => x ++ sep ++ join sep l'
  end.

(** ** Insertion-ordered dictionaries *)

Module Dict.
Section Dict.
Variable V : Type.

Definition t := list (str * V).

Definition empty : t := [].

Definition keys (d : t) : list str := map fst d.
Definition values (d : t) : list V := map snd d.

(** [d.get(k)] *)
Fixpoint get (d : t) (k : str) : option V :=
  match d with
  | [] => None
  | (k', v) :: d' => if str_eqb k' k then Some v else get d' k
  end.

(** [d[k] = v] *)
Fixpoint set (d : t) (k : str) (v : V) : t :=
  match d with
  | [] => [(k, v)]
  | (k', v') :: d' =>
      if str_eqb k' k then (k', v) :: d' else (k', v') :: set d' k v
  end.

(** [dict(pairs)]: later pairs overwrite earlier ones. *)
Definition of_pairs (l : list (str * V)) : t :=
  fold_left (fun d kv => set d (fst kv) (snd kv)) l empty.

(** What distinguishes a dictionary from a list of pairs. *)
Definition wf (d : t) : Prop := NoDup (keys d).
End Dict.
Arguments empty {V}.
End Dict.

(** ** The analysis, step by step (lines 16 to 74 of the script) *)

Definition dataset := Dict.t (list str).
Definition index := Dict.t (list str).

(** [categories[category].append(word)] on a [defaultdict(list)]: a missing
    key is first bound to the empty list, at the end of the dictionary. *)
Definition append_word (categories : index) (category word : str) : index :=
  match Dict.get categories category with
  | Some words => Dict.set categories category (words ++ [word])
  | None => Dict.set categories category ([] ++ [word])
  end.

(** Lines 17-20. *)
Definition categories (words_data : dataset) : index :=
  fold_left
    (fun cats (item : str * list str) =>
       let (word, word_categories) := item in
       fold_left (fun cats category => append_word cats category word)
                 word_categories cats)
    words_data Dict.empty.

Definition Starts_with : str := py "Starts with".
Definition Ends_with : str := py "Ends with".

(** The condition of lines 25-29. *)
Definition is_small (category : str) (words : list str) : bool :=
  (length words <? 4)
  && negb (startswith category Starts_with)
  && negb (startswith category Ends_with).

(** Lines 23-30. *)
Definition small_of (cats : index) : index :=
  fold_left
    (fun small (item : str * list str) =>
       let (category, words) := item in
       if is_small category words then Dict.set small category words else small)
    cats Dict.empty.

Definition small_categories (words_data : dataset) : index :=
  small_of (categories words_data).

(** [sorted(l, key=key)] is a stable sort: the result is ordered by key and
    elements of equal key keep their relative order.  There is one such
    list ([stable_sort_unique] below); insertion from the right computes
    it. *)
Fixpoint insert_by (A : Type) (key : A -> nat) (x : A) (l : list A) : list A :=
  match l with
  | [] => [x]
  | y :: l' => if key x <=? key y then x :: l else y :: insert_by key x l'
  end.

Definition sorted (A : Type) (key : A -> nat) (l : list A) : list A :=
  fold_right (insert_by key) [] l.

(** [lambda x: len(x[1])] *)
Definition by_size (x : str * list str) : nat := length (snd x).

(** Line 33. *)
Definition sorted_small_categories (words_data : dataset) : list (str * list str) :=
  sorted by_size (small_categories words_data).

(** Lines 45-47. *)
Definition thin_of (sorted_small : list (str * list str)) : index :=
  fold_left
    (fun thin (item : str * list str) =>
       let (category, words) := item in Dict.set thin category words)
    sorted_small Dict.empty.

Definition thin_categories (words_data : dataset) : index :=
  thin_of (sorted_small_categories words_data).

(** Lines 57-63. *)
Definition total_of (cats : index) : nat :=
  length
    (filter (fun c => negb (startswith c Starts_with)
                      && negb (startswith c Ends_with))
            (Dict.keys cats)).

(** Lines 64-74: the inner [any] ranges over all the keys of the index. *)
Definition usable_of (cats : index) : nat :=
  length
    (filter (fun w => (4 <=? length w)
                      && negb (existsb (fun c => startswith c Starts_with
                                                 || startswith c Ends_with)
                                       (Dict.keys cats)))
            (Dict.values cats)).

Definition total_categories (words_data : dataset) : nat :=
  total_of (categories words_data).

Definition usable_categories (words_data : dataset) : nat :=
  usable_of (categories words_data).

(** ** Numbers in the report *)

(** [str(n)] for a non-negative integer. *)
Definition str_of_nat (n : nat) : str :=
  py (DecimalString.NilEmpty.string_of_uint (Nat.to_uint n)).

Definition str_of_Z (z : Z) : str := str_of_nat (Z.to_nat z).

(** The conversion of a count to [float]; exact below [2^53]. *)
Definition float_of_nat (n : nat) : float :=
  PrimFloat.of_uint63 (Uint63.of_Z (Z.of_nat n)).

(** The nearest integer to [n * 2^e], ties to even ([0 <= n]). *)
Definition round_half_even (n e : Z) : Z :=
  if (0 <=? e)%Z then (n * 2 ^ e)%Z
  else
    let den := (2 ^ (- e))%Z in
    let q := (n / den)%Z in
    let r := (n mod den)%Z in
    match (2 * r ?= den)%Z with
    | Lt => q
    | Gt => (q + 1)%Z
    | Eq => if Z.even q then q else (q + 1)%Z
    end.

(** [f"{x:.1f}"]: the decimal with one fractional digit nearest to the exact
    value of [x], ties to even. *)
Definition format_1f (x : float) : str :=
  let sign (s : bool) : str := if s then py "-" else [] in
  match Prim2SF x with
  | S754_nan => py "nan"
  | S754_infinity s => sign s ++ py "inf"
  | S754_zero s => sign s ++ py "0.0"
  | S754_finite s m e =>
      let tenths := round_half_even (Z.pos m * 10) e in
      sign s ++ str_of_Z (tenths / 10) ++ py "." ++ str_of_Z (tenths mod 10)
  end.

(** ** Effects: standard output, files, exceptions *)

Inductive exn : Type :=
| ZeroDivisionError
| UnicodeEncodeError.

Inductive result (A : Type) : Type :=
| Returned (a : A)
| Raised (e : exn).
Arguments Raised {A} e.

Record world : Type := World {
  stdout : str;
  files : Dict.t str
}.

Definition run (A : Type) : Type := world -> result A * world.

Definition ret (A : Type) (a : A) : run A := fun w => (Returned a, w).

Definition bind (A B : Type) (c : run A) (k : A -> run B) : run B :=
  fun w =>
    match c w with
    | (Returned a, w') => k a w'
    | (Raised e, w') => (Raised e, w')
    end.

Definition raise (A : Type) (e : exn) : run A := fun w => (Raised e, w).
Arguments raise {A} e.

Declare Scope run_scope.
Delimit Scope run_scope with run.
Notation "x <- c ;; k" := (bind c (fun x => k))
  (at level 61, c at next level, right associativity) : run_scope.
Notation "c ;; k" := (bind c (fun _ => k))
  (at level 61, right associativity) : run_scope.

Definition LF : N := 10.

(** What the stream of standard output encodes: every code point but the
    surrogates, [0xD800] to [0xDFFF]. *)
Definition stdout_encodes (c : N) : bool :=
  negb ((55296 <=? c) && (c <=? 57343))%N.

Definition encodable (s : str) : bool := forallb stdout_encodes s.

(** [print(s)]: the text and the end of line go to the stream, which encodes
    the whole text before it takes any of it. *)
Definition print (s : str) : run unit :=
  fun w =>
    if encodable s
    then (Returned tt, {| stdout := stdout w ++ s ++ [LF]; files := files w |})
    else (Raised UnicodeEncodeError, w).

(** [with open(path, "w") as f: f.write(content)] *)
Definition write_file (path content : str) : run unit :=
  fun w => (Returned tt, {| stdout := stdout w;
                            files := Dict.set (files w) path content |}).

(** [for x in l: body(x)] *)
Fixpoint for_each (A : Type) (l : list A) (body : A -> run unit) : run unit :=
  match l with
  | [] => ret tt
  | x :: l' => (body x ;; for_each l' body)%run
  end.

(** [a / b] on integers. *)
Definition truediv (a b : nat) : run float :=
  if b =? 0 then raise ZeroDivisionError
  else ret (PrimFloat.div (float_of_nat a) (float_of_nat b)).

(** ** [json.dump(obj, f, indent=2)] for a dictionary of lists of strings *)

Definition QUOTE : N := 34.
Definition BACKSLASH : N := 92.

Definition hex_digit (n : N) : N :=
  nth (N.to_nat n) (py "0123456789abcdef") 48%N.

(** ['\\u{0:04x}'.format(n)] for [n < 0x10000]. *)
Definition u_escape (n : N) : str :=
  [BACKSLASH; 117%N;
   hex_digit (N.shiftr n 12);
   hex_digit (N.land (N.shiftr n 8) 15);
   hex_digit (N.land (N.shiftr n 4) 15);
   hex_digit (N.land n 15)].

(** The replacement of one character in [encode_basestring_ascii]:
    printable ASCII other than the quote and the backslash is kept. *)
Definition escape_char (c : N) : str :=
  if ((32 <=? c) && (c <=? 126) && negb (c =? QUOTE) && negb (c =? BACKSLASH))%N
  then [c]
  else if (c =? BACKSLASH)%N then [BACKSLASH; BACKSLASH]
  else if (c =? QUOTE)%N then [BACKSLASH; QUOTE]
  else if (c =? 8)%N then [BACKSLASH; 98%N]
  else if (c =? 12)%N then [BACKSLASH; 102%N]
  else if (c =? 10)%N then [BACKSLASH; 110%N]
  else if (c =? 13)%N then [BACKSLASH; 114%N]
  else if (c =? 9)%N then [BACKSLASH; 116%N]
  else if (c <? 65536)%N then u_escape c
  else
    let n := (c - 65536)%N in
    let s1 := N.lor 55296 (N.land (N.shiftr n 10) 1023) in
    let s2 := N.lor 56320 (N.land n 1023) in
    u_escape s1 ++ u_escape s2.

Definition encode_basestring_ascii (s : str) : str :=
  [QUOTE] ++ flat_map escape_char s ++ [QUOTE].

(** ['\n' + indent * level] with [indent = '  ']. *)
Definition newline_indent (level : nat) : str :=
  [LF] ++ concat (repeat (py "  ") level).

Definition iterencode_list (lst : list str) (level : nat) : str :=
  match lst with
  | [] => py "[]"
  | _ =>
      py "[" ++ newline_indent (S level)
      ++ join (py "," ++ newline_indent (S level))
              (map encode_basestring_ascii lst)
      ++ newline_indent level ++ py "]"
  end.

Definition iterencode_dict (dct : index) (level : nat) : str :=
  match dct with
  | [] => py "{}"
  | _ =>
      py "{" ++ newline_indent (S level)
      ++ join (py "," ++ newline_indent (S level))
              (map (fun item : str * list str =>
                      encode_basestring_ascii (fst item) ++ py ": "
                      ++ iterencode_list (snd item) (S level))
                   dct)
      ++ newline_indent level ++ py "}"
  end.

Definition json_dumps (obj : index) : str := iterencode_dict obj 0.

(** ** The script *)

Definition thin_path : str := py "data/thin_categories.json".

Definition rule : str := repeat 61%N 80.

(** The f-string of line 42. *)
Definition category_line (item : str * list str) : str :=
  let (category, words) := item in
  category ++ py " (" ++ str_of_nat (length words)
  ++ py " items): " ++ join (py ", ") words.

(** Lines 16 to 81, given the value [json.load] returned at line 14. *)
Definition analyze_categories (words_data : dataset) : run unit :=
  (let categories := categories words_data in
   let small_categories := small_of categories in
   let sorted_small_categories := sorted by_size small_categories in
   print (py "Found " ++ str_of_nat (length sorted_small_categories)
          ++ py " categories with fewer than 4 items "
          ++ py "(excluding 'Starts with' and 'Ends with'):") ;;
   print rule ;;
   for_each sorted_small_categories
     (fun item => print (category_line item)) ;;
   let thin_categories := thin_of sorted_small_categories in
   write_file thin_path (json_dumps thin_categories) ;;
   print ([LF] ++ py "Saved " ++ str_of_nat (length thin_categories)
          ++ py " thin categories to data/thin_categories.json") ;;
   let total_categories := total_of categories in
   let usable_categories := usable_of categories in
   print ([LF] ++ rule) ;;
   print (py "Summary (excluding 'Starts with' and 'Ends with'):") ;;
   print (py "Total categories: " ++ str_of_nat total_categories) ;;
   print (py "Categories with 4+ items (usable): "
          ++ str_of_nat usable_categories) ;;
   print (py "Categories with <4 items (need expansion): "
          ++ str_of_nat (length sorted_small_categories)) ;;
   q <- truediv usable_categories total_categories ;;
   print (py "Usable percentage: "
          ++ format_1f (PrimFloat.mul q (float_of_nat 100)) ++ py "%"))%run.

(** ** [json.loads] on the texts that denote a dictionary of lists of strings

    The decoder follows [json.decoder]: [scanstring] is [py_scanstring],
    [JSONArray] and [JSONObject] are the functions of those names, with the
    value scanner restricted to the values of the shape above.  The result is
    [None] where the decoder raises and on values of another shape. *)

(** [WHITESPACE_STR = ' \t\n\r'] *)
Definition is_ws (c : N) : bool :=
  ((c =? 32) || (c =? 9) || (c =? 10) || (c =? 13))%N.

Fixpoint skip_ws (s : str) : str :=
  match s with
  | c :: s' => if is_ws c then skip_ws s' else s
  | [] => []
  end.

(** The value of a character of [[0-9A-Fa-f]]. *)
Definition hex_value (c : N) : option N :=
  if ((48 <=? c) && (c <=? 57))%N then Some (c - 48)%N
  else if ((65 <=? c) && (c <=? 70))%N then Some (c - 55)%N
  else if ((97 <=? c) && (c <=? 102))%N then Some (c - 87)%N
  else None.

(** [_decode_uXXXX] on the four characters after the [u]. *)
Definition decode_uXXXX (h1 h2 h3 h4 : N) : option N :=
  match hex_value h1, hex_value h2, hex_value h3, hex_value h4 with
  | Some a, Some b, Some c, Some d => Some (((a * 16 + b) * 16 + c) * 16 + d)%N
  | _, _, _, _ => None
  end.

(** The [BACKSLASH] table of the decoder. *)
Definition unescape (esc : N) : option N :=
  if (esc =? QUOTE)%N then Some QUOTE
  else if (esc =? BACKSLASH)%N then Some BACKSLASH
  else if (esc =? 47)%N then Some 47%N
  else if (esc =? 98)%N then Some 8%N
  else if (esc =? 102)%N then Some 12%N
  else if (esc =? 110)%N then Some 10%N
  else if (esc =? 114)%N then Some 13%N
  else if (esc =? 116)%N then Some 9%N
  else None.

Definition is_high_surrogate (u : N) : bool := ((55296 <=? u) && (u <=? 56319))%N.
Definition is_low_surrogate (u : N) : bool := ((56320 <=? u) && (u <=? 57343))%N.

Definition join_surrogates (u u2 : N) : N :=
  (65536 + N.lor (N.shiftl (u - 55296) 10) (u2 - 56320))%N.

Definition cons_char (c : N) (r : option (str * str)) : option (str * str) :=
  match r with
  | Some (content, rest) => Some (c :: content, rest)
  | None => None
  end.

(** [py_scanstring(s, end)] with [strict=True], from the character after the
    opening quote: the decoded content and the text after the closing quote. *)
Fixpoint scanstring (s : str) : option (str * str) :=
  match s with
  | [] => None
  | c :: s1 =>
      if (c =? QUOTE)%N then Some ([], s1)
      else if (c =? BACKSLASH)%N then
        match s1 with
        | [] => None
        | esc :: s2 =>
            if (esc =? 117)%N then
              match s2 with
              | h1 :: h2 :: h3 :: h4 :: s3 =>
                  match decode_uXXXX h1 h2 h3 h4 with
                  | None => None
                  | Some uni =>
                      match s3 with
                      | b :: u :: s4 =>
                          if is_high_surrogate uni
                             && (b =? BACKSLASH)%N && (u =? 117)%N
                          then
                            match s4 with
                            | g1 :: g2 :: g3 :: g4 :: s5 =>
                                match decode_uXXXX g1 g2 g3 g4 with
                                | None => None
                                | Some uni2 =>
                                    if is_low_surrogate uni2
                                    then cons_char (join_surrogates uni uni2)
                                                   (scanstring s5)
                                    else cons_char uni (scanstring s3)
                                end
                            | _ => None
                            end
                          else cons_char uni (scanstring s3)
                      | _ => cons_char uni (scanstring s3)
                      end
                  end
              | _ => None
              end
            else
              match unescape esc with
              | Some c' => cons_char c' (scanstring s2)
              | None => None
              end
        end
      else if (c <? 32)%N then None
      else cons_char c (scanstring s1)
  end.

(** The loop of [JSONArray], from an element on; every element is a string. *)
Fixpoint array_items (fuel : nat) (s : str) : option (list str * str) :=
  match fuel with
  | O => None
  | S fuel' =>
      match s with
      | c :: s1 =>
          if (c =? QUOTE)%N then
            match scanstring s1 with
            | None => None
            | Some (value, s2) =>
                match skip_ws s2 with
                | d :: s3 =>
                    if (d =? 93)%N then Some ([value], s3)
                    else if (d =? 44)%N then
                      match array_items fuel' (skip_ws s3) with
                      | Some (values, rest) => Some (value :: values, rest)
                      | None => None
                      end
                    else None
                | [] => None
                end
            end
          else None
      | [] => None
      end
  end.

(** [JSONArray], from the character after the bracket. *)
Definition JSONArray (fuel : nat) (s : str) : option (list str * str) :=
  match skip_ws s with
  | c :: s1 => if (c =? 93)%N then Some ([], s1) else array_items fuel (c :: s1)
  | [] => None
  end.

(** The loop of [JSONObject], from a key on; every value is an array. *)
Fixpoint object_pairs (fuel : nat) (s : str)
  : option (list (str * list str) * str) :=
  match fuel with
  | O => None
  | S fuel' =>
      match s with
      | c :: s1 =>
          if (c =? QUOTE)%N then
            match scanstring s1 with
            | None => None
            | Some (key, s2) =>
                match skip_ws s2 with
                | colon :: s3 =>
                    if (colon =? 58)%N then
                      match skip_ws s3 with
                      | br :: s4 =>
                          if (br =? 91)%N then
                            match JSONArray fuel' s4 with
                            | None => None
                            | Some (value, s5) =>
                                match skip_ws s5 with
                                | d :: s6 =>
                                    if (d =? 125)%N then Some ([(key, value)], s6)
                                    else if (d =? 44)%N then
                                      match object_pairs fuel' (skip_ws s6) with
                                      | Some (pairs, rest) =>
                                          Some ((key, value) :: pairs, rest)
                                      | None => None
                                      end
                                    else None
                                | [] => None
                                end
                            end
                          else None
                      | [] => None
                      end
                    else None
                | [] => None
                end
            end
          else None
      | [] => None
      end
  end.

(** [JSONObject], from the character after the brace; [dict(pairs)] at the
    end. *)
Definition JSONObject (fuel : nat) (s : str) : option (index * str) :=
  match skip_ws s with
  | c :: s1 =>
      if (c =? 125)%N then Some (Dict.empty, s1)
      else
        match object_pairs fuel (c :: s1) with
        | Some (pairs, rest) => Some (Dict.of_pairs pairs, rest)
        | None => None
        end
  | [] => None
  end.

(** [json.loads(s)]: one value between optional white space, nothing after. *)
Definition json_loads (s : str) : option index :=
  match skip_ws s with
  | c :: s1 =>
      if (c =? 123)%N then
        match JSONObject (length s) s1 with
        | Some (obj, rest) =>
            match skip_ws rest with
            | [] => Some obj
            | _ :: _ => None
            end
        | None => None
        end
      else None
  | [] => None
  end.

Definition scenario : dataset :=
  [ (py "cat", [py "Fruit"]);
    (py "dog", [py "Pet"]);
    (py "ant", [py "Insect"; py "Pet"]) ].

(** ** Vocabulary of the specification *)

(** The category is one of the two reserved families. *)
Definition excluded (c : str) : bool :=
  startswith c Starts_with || startswith c Ends_with.

(** [lst.count(x)] *)
Definition count (x : str) (l : list str) : nat :=
  length (filter (str_eqb x) l).

(** [c in cs] *)
Definition mem (c : str) (cs : list str) : bool := existsb (str_eqb c) cs.

(** The words of the dataset that list [c], in the order of the scan. *)
Definition words_listing (c : str) (words_data : dataset) : list str :=
  map fst (filter (fun item => mem c (snd item)) words_data).

(** The list the index holds for a category, empty when it holds none. *)
Definition lookup (cats : index) (c : str) : list str :=
  match Dict.get cats c with
  | Some words => words
  | None => []
  end.

(** [del d[k]] *)
Definition remove (V : Type) (d : Dict.t V) (k : str) : Dict.t V :=
  filter (fun item => negb (str_eqb (fst item) k)) d.

(** The usable categories as the specification counts them: four words or
    more, and a name outside the reserved families. *)
Definition usable_intended (cats : index) : nat :=
  length (filter (fun item : str * list str =>
                    (4 <=? length (snd item)) && negb (excluded (fst item)))
                 cats).

(** One copy of each word for every time it lists [c], in the order of the
    scan. *)
Definition listings (c : str) (words_data : dataset) : list str :=
  flat_map (fun item => repeat (fst item) (count c (snd item))) words_data.

(** What the construction of the index maintains. *)
Definition index_ok (cats : index) : Prop :=
  Dict.wf cats /\ Forall (fun item => snd item <> []) cats.

(** Lines 19-20 for one word. *)
Definition add_word (cats : index) (item : str * list str) : index :=
  let (word, word_categories) := item in
  fold_left (fun cats category => append_word cats category word)
            word_categories cats.

(** The filter of lines 25-29 on an item of the index. *)
Definition small_item (item : str * list str) : bool :=
  is_small (fst item) (snd item).

(** The order of a sort by [key], and the elements of a given key. *)
Definition key_le (A : Type) (key : A -> nat) (a b : A) : Prop :=
  key a <= key b.
Definition has_key (A : Type) (key : A -> nat) (n : nat) (a : A) : bool :=
  key a =? n.

(** No string occurs twice. *)
Fixpoint nodupb (l : list str) : bool :=
  match l with
  | [] => true
  | x :: l' => negb (mem x l') && nodupb l'
  end.

(** What a computation does to any world: its result, the text it prints
    and the files it writes, in order. *)
Definition effect_of (A : Type) (c : run A) (r : result A) (out : str)
                     (writes : list (str * str)) : Prop :=
  forall w,
    c w = (r, {| stdout := stdout w ++ out;
                 files := fold_left (fun fs kv => Dict.set fs (fst kv) (snd kv))
                                    writes (files w) |}).

(** A dataset with a reserved category of one word. *)
Definition apple : dataset :=
  [ (py "apple", [py "Starts with A"; py "Fruit"]) ].

(** A dataset with one category of four words and a reserved category. *)
Definition four_and_reserved : dataset :=
  [ (py "a", [py "X"; py "Starts with A"]);
    (py "b", [py "X"]);
    (py "c", [py "X"]);
    (py "d", [py "X"]) ].

(** A world with earlier output and an earlier version of the file. *)
Definition used_world : world :=
  {| stdout := py "earlier output";
     files := [(thin_path, py "{}"); (py "data/words.json", py "{}")] |}.

(** The text after a [\uXXXX] escape goes on with an escape that the decoder
    pairs with a high surrogate before it, or rejects. *)
Definition low_escape_follows (s : str) : bool :=
  match s with
  | b :: u :: s4 =>
      (b =? BACKSLASH)%N && (u =? 117)%N
      && match s4 with
         | g1 :: g2 :: g3 :: g4 :: _ =>
             match decode_uXXXX g1 g2 g3 g4 with
             | Some uni2 => is_low_surrogate uni2
             | None => true
             end
         | _ => true
         end
  | _ => false
  end.

Definition head_low (s : str) : bool :=
  match s with
  | c :: _ => is_low_surrogate c
  | [] => false
  end.

(** The strings the decoder returns: code points, and no high surrogate
    directly before a low one (the decoder joins such a pair). *)
Fixpoint json_str (s : str) : bool :=
  match s with
  | [] => true
  | c :: s' =>
      (c <? 1114112)%N
      && negb (is_high_surrogate c && head_low s')
      && json_str s'
  end.

(** The characters of a decoded text file: Unicode scalar values. *)
Definition is_scalar (c : N) : bool :=
  (c <? 1114112)%N && negb (is_high_surrogate c) && negb (is_low_surrogate c).

(** Every word and every category of the dataset is such a string. *)
Definition strs_ok (d : Dict.t (list str)) : bool :=
  forallb (fun item : str * list str =>
             json_str (fst item) && forallb json_str (snd item)) d.

(** The two escapes the encoder writes for a code point above the BMP. *)
Definition high_of (c : N) : N :=
  N.lor 55296 (N.land (N.shiftr (c - 65536) 10) 1023).
Definition low_of (c : N) : N :=
  N.lor 56320 (N.land (c - 65536) 1023).

(** The elements of a list and the items of a dictionary as the encoder
    writes them, separators included, at a level of indentation. *)
Definition items_text (lst : list str) (level : nat) : str :=
  join (py "," ++ newline_indent level) (map encode_basestring_ascii lst).

Definition pair_text (level : nat) (item : str * list str) : str :=
  encode_basestring_ascii (fst item) ++ py ": "
  ++ iterencode_list (snd item) level.

Definition pairs_text (dct : index) (level : nat) : str :=
  join (py "," ++ newline_indent level) (map (pair_text level) dct).

(** The lines of the loop of lines 41-42 for a sequence of items. *)
Definition category_lines (items : list (str * list str)) : str :=
  flat_map (fun item => category_line item ++ [LF]) items.

(** Every line of the loop of lines 41-42 can be printed. *)
Definition lines_encodable (words_data : dataset) : bool :=
  forallb (fun item => encodable (category_line item))
          (sorted_small_categories words_data).

(** How the run ends. *)
Definition outcome (words_data : dataset) : result unit :=
  if lines_encodable words_data
  then if total_categories words_data =? 0
       then Raised ZeroDivisionError else Returned tt
  else Raised UnicodeEncodeError.

(** What the run writes. *)
Definition written (words_data : dataset) : list (str * str) :=
  if lines_encodable words_data
  then [(thin_path, json_dumps (thin_categories words_data))]
  else [].



(** The text of some lines. *)
Definition lines (l : list str) : str :=
  flat_map (fun x => x ++ [LF]) l.

Definition no_world : world := {| stdout := []; files := Dict.empty |}.

(** ** Vocabulary of the further properties *)

(** The strings of a list, each once, in the order of their first
    occurrence. *)
Fixpoint first_seen (l : list str) : list str :=
  match l with
  | [] => []
  | c :: l' => c :: filter (fun x => negb (str_eqb x c)) (first_seen l')
  end.

(** The keys [K] followed by the strings of [l] that are new, each once. *)
Definition absorb (K l : list str) : list str :=
  K ++ filter (fun x => negb (mem x K)) (first_seen l).

(** The categories of the index with the sizes of their lists. *)
Definition sizes (cats : index) : list (str * nat) :=
  map (fun item => (fst item, length (snd item))) cats.

(** A dataset in which a word lists a category twice. *)
Definition repeated : dataset :=
  [ (py "cat", [py "Pet"; py "Pet"]); (py "dog", [py "Pet"]) ].

(** A dataset with reserved categories only. *)
Definition only_reserved : dataset :=
  [ (py "apple", [py "Starts with A"]);
    (py "bee", [py "Ends with E"; py "Starts with B"]) ].

(** The characters of the output file: the line feed and printable ASCII. *)
Definition is_file_char (c : N) : bool :=
  ((c =? LF) || ((32 <=? c) && (c <=? 126)))%N.

(** The thin categories of the scenario, in the order of the output. *)
Definition scenario_thin : list (str * list str) :=
  [ (py "Fruit", [py "cat"]);
    (py "Insect", [py "ant"]);
    (py "Pet", [py "dog"; py "ant"]) ].

(** A text with white space, a key given twice and an escape. *)
Definition twice_text : str :=
  py " {" ++ [QUOTE] ++ py "a" ++ [QUOTE] ++ py " : [] , "
  ++ [QUOTE] ++ py "b" ++ [QUOTE] ++ py ":[" ++ [QUOTE] ++ py "y" ++ [QUOTE]
  ++ py "],  " ++ [QUOTE] ++ py "a" ++ [QUOTE] ++ py ":[ " ++ [QUOTE]
  ++ py "x\u00e9\n" ++ [QUOTE] ++ py " ] } ".

(** * Proofs *)

(** ** Strings and dictionaries *)

Lemma str_eqb_eq (a b : str) : str_eqb a b = true <-> a = b.
Proof.
  revert b; induction a as [|x a IH]; intros [|y b]; simpl;
    try (split; (discriminate || reflexivity)).
  rewrite andb_true_iff, N.eqb_eq, IH.
  split; [intros [-> ->]; reflexivity | intros [= -> ->]; auto].
Qed.

Lemma str_eqb_refl (a : str) : str_eqb a a = true.
Proof. now apply str_eqb_eq. Qed.

Lemma str_eqb_neq (a b : str) : str_eqb a b = false <-> a <> b.
Proof.
  rewrite <- str_eqb_eq. destruct (str_eqb a b); split; congruence.
Qed.

Lemma str_eqb_sym (a b : str) : str_eqb a b = str_eqb b a.
Proof.
  destruct (str_eqb b a) eqn:E.
  - apply str_eqb_eq in E; subst; apply str_eqb_refl.
  - apply str_eqb_neq in E; apply str_eqb_neq; congruence.
Qed.

(** Case analysis on a comparison of strings, with the equation in scope. *)
Ltac eq_case a b :=
  let E := fresh "E" in
  let D := fresh "Hdiff" in
  destruct (str_eqb a b) eqn:E;
  [apply str_eqb_eq in E; try subst
  | pose proof (proj1 (str_eqb_neq _ _) E) as D].

Section DictFacts.
Variable V : Type.
Implicit Types (d : Dict.t V) (k : str) (v : V).

Lemma Dict_get_None d k : Dict.get d k = None <-> ~ In k (Dict.keys d).
Proof.
  induction d as [|[k' v'] d IH]; simpl.
  - tauto.
  - eq_case k' k.
    + split; [discriminate | intros H; exfalso; apply H; now left].
    + rewrite IH. tauto.
Qed.

Lemma Dict_get_In d k v : Dict.get d k = Some v -> In (k, v) d.
Proof.
  induction d as [|[k' v'] d IH]; simpl; [discriminate|].
  eq_case k' k.
  - intros [= ->]; now left.
  - intros; right; auto.
Qed.

Lemma Dict_In_get d k v : Dict.wf d -> In (k, v) d -> Dict.get d k = Some v.
Proof.
  unfold Dict.wf.
  induction d as [|[k' v'] d IH]; simpl; [tauto|].
  intros Hnd [[= -> ->]|Hin].
  - now rewrite str_eqb_refl.
  - inversion Hnd as [|? ? Hk Hd]; subst.
    eq_case k' k.
    + exfalso; apply Hk.
      change k with (fst (k, v)); now apply in_map.
    + auto.
Qed.

Lemma Dict_get_keys d k v : Dict.get d k = Some v -> In k (Dict.keys d).
Proof.
  intros H; apply Dict_get_In in H.
  change k with (fst (k, v)); now apply in_map.
Qed.

Lemma Dict_set_fresh d k v :
  ~ In k (Dict.keys d) -> Dict.set d k v = d ++ [(k, v)].
Proof.
  induction d as [|[k' v'] d IH]; simpl; intros H; [reflexivity|].
  eq_case k' k; [tauto|].
  rewrite IH; tauto.
Qed.

Lemma Dict_keys_set_present d k v :
  In k (Dict.keys d) -> Dict.keys (Dict.set d k v) = Dict.keys d.
Proof.
  induction d as [|[k' v'] d IH]; simpl; [tauto|].
  intros H; eq_case k' k; simpl; [reflexivity|].
  f_equal; apply IH; destruct H; congruence.
Qed.

Lemma Dict_get_set d k v k' :
  Dict.get (Dict.set d k v) k' = if str_eqb k k' then Some v else Dict.get d k'.
Proof.
  induction d as [|[k0 v0] d IH]; simpl.
  - reflexivity.
  - eq_case k0 k; simpl.
    + destruct (str_eqb k k'); reflexivity.
    + eq_case k0 k'.
      * rewrite (proj2 (str_eqb_neq _ _)); congruence.
      * apply IH.
Qed.

Lemma Dict_wf_set d k v : Dict.wf d -> Dict.wf (Dict.set d k v).
Proof.
  unfold Dict.wf; intros Hd.
  destruct (in_dec (list_eq_dec N.eq_dec) k (Dict.keys d)) as [Hin|Hout].
  - now rewrite Dict_keys_set_present.
  - rewrite Dict_set_fresh by assumption.
    unfold Dict.keys; rewrite map_app; simpl.
    apply (Permutation_NoDup (l := k :: map fst d)).
    + apply Permutation_cons_append.
    + now constructor.
Qed.

(** Binding pairs with distinct fresh keys one after the other appends
    them. *)
Lemma Dict_of_pairs_app d (l : list (str * V)) :
  NoDup (Dict.keys d ++ map fst l) ->
  fold_left (fun acc kv => Dict.set acc (fst kv) (snd kv)) l d = d ++ l.
Proof.
  revert d; induction l as [|[k v] l IH]; intros d Hnd; simpl.
  - now rewrite app_nil_r.
  - rewrite Dict_set_fresh.
    + rewrite IH.
      * now rewrite <- app_assoc.
      * unfold Dict.keys in *; rewrite map_app, <- app_assoc; exact Hnd.
    + apply NoDup_remove_2 in Hnd. intros Hk; apply Hnd, in_or_app; now left.
Qed.

Lemma Dict_of_pairs_wf (l : Dict.t V) : Dict.wf l -> Dict.of_pairs l = l.
Proof.
  intros H; unfold Dict.of_pairs, Dict.empty.
  now rewrite Dict_of_pairs_app.
Qed.
End DictFacts.

(** ** The index (lines 16-20) *)

Lemma Dict_In_set (V : Type) (d : Dict.t V) k v k' v' :
  In (k', v') (Dict.set d k v) -> (k' = k /\ v' = v) \/ In (k', v') d.
Proof.
  induction d as [|[k0 v0] d IH]; simpl.
  - intros [[= -> ->]|[]]; auto.
  - eq_case k0 k; simpl.
    + intros [[= -> ->]|H]; auto.
    + intros [[= -> ->]|H]; auto. destruct (IH H); auto.
Qed.

Lemma Dict_keys_set (V : Type) (d : Dict.t V) k v k' :
  In k' (Dict.keys (Dict.set d k v)) <-> k' = k \/ In k' (Dict.keys d).
Proof.
  induction d as [|[k0 v0] d IH]; simpl.
  - intuition congruence.
  - eq_case k0 k; simpl.
    + intuition congruence.
    + rewrite IH. intuition congruence.
Qed.

Lemma append_word_set cats c w :
  append_word cats c w = Dict.set cats c (lookup cats c ++ [w]).
Proof. unfold append_word, lookup. now destruct (Dict.get cats c). Qed.

Lemma lookup_append_word cats c w c' :
  lookup (append_word cats c w) c'
  = lookup cats c' ++ (if str_eqb c' c then [w] else []).
Proof.
  rewrite append_word_set. unfold lookup at 1.
  rewrite Dict_get_set, (str_eqb_sym c c').
  eq_case c' c.
  - reflexivity.
  - fold (lookup cats c'). now rewrite app_nil_r.
Qed.

Lemma index_ok_append_word cats c w :
  index_ok cats -> index_ok (append_word cats c w).
Proof.
  intros [Hwf Hne]; rewrite append_word_set; split.
  - now apply Dict_wf_set.
  - rewrite Forall_forall in *. intros [k v] Hin.
    apply Dict_In_set in Hin as [[-> ->]|Hin]; simpl.
    + now destruct (lookup cats c).
    + exact (Hne _ Hin).
Qed.

Lemma keys_append_word cats c w c' :
  In c' (Dict.keys (append_word cats c w)) <-> c' = c \/ In c' (Dict.keys cats).
Proof. rewrite append_word_set; apply Dict_keys_set. Qed.

Lemma count_cons c x l :
  count c (x :: l) = (if str_eqb c x then 1 else 0) + count c l.
Proof. unfold count; simpl. now destruct (str_eqb c x). Qed.

Lemma lookup_add_word cats w cs c' :
  lookup (add_word cats (w, cs)) c' = lookup cats c' ++ repeat w (count c' cs).
Proof.
  simpl. revert cats; induction cs as [|c cs IH]; intros cats; simpl.
  - now rewrite app_nil_r.
  - rewrite IH, lookup_append_word, count_cons, <- app_assoc.
    now destruct (str_eqb c' c).
Qed.

Lemma index_ok_add_word cats item : index_ok cats -> index_ok (add_word cats item).
Proof.
  destruct item as [w cs]; simpl.
  revert cats; induction cs as [|c cs IH]; intros cats H; simpl; auto.
  apply IH, index_ok_append_word, H.
Qed.

Lemma keys_add_word cats w cs c' :
  In c' (Dict.keys (add_word cats (w, cs))) <-> In c' cs \/ In c' (Dict.keys cats).
Proof.
  simpl. revert cats; induction cs as [|c cs IH]; intros cats; simpl.
  - tauto.
  - rewrite IH, keys_append_word. intuition congruence.
Qed.

Lemma categories_fold words_data :
  categories words_data = fold_left add_word words_data Dict.empty.
Proof.
  unfold categories. generalize (@Dict.empty (list str)).
  induction words_data as [|[w cs] d IH]; intros acc; simpl; auto.
Qed.

Section IndexInvariant.
Variable words_data : dataset.

Lemma fold_add_word_lookup cats c :
  lookup (fold_left add_word words_data cats) c
  = lookup cats c ++ listings c words_data.
Proof.
  revert cats; induction words_data as [|[w cs] d IH]; intros cats.
  - simpl. now rewrite app_nil_r.
  - cbn [fold_left]. rewrite IH, lookup_add_word.
    unfold listings; simpl. now rewrite <- app_assoc.
Qed.

Lemma fold_add_word_ok cats :
  index_ok cats -> index_ok (fold_left add_word words_data cats).
Proof.
  revert cats; induction words_data as [|item d IH]; intros cats H; simpl; auto.
  apply IH, index_ok_add_word, H.
Qed.

Lemma fold_add_word_keys cats c :
  In c (Dict.keys (fold_left add_word words_data cats))
  <-> In c (Dict.keys cats) \/ exists w cs, In (w, cs) words_data /\ In c cs.
Proof.
  revert cats; induction words_data as [|[w cs] d IH]; intros cats.
  - simpl. split; [auto | intros [H|(? & ? & [] & _)]; auto].
  - cbn [fold_left]. rewrite IH, keys_add_word. split.
    + intros [[H|H]|(w' & cs' & H & H')]; auto.
      * right; exists w, cs; split; [now left | assumption].
      * right; exists w', cs'; split; [now right | assumption].
    + intros [H|(w' & cs' & [[= -> ->]|H] & H')]; auto.
      right; eauto.
Qed.

Lemma categories_ok : index_ok (categories words_data).
Proof.
  rewrite categories_fold. apply fold_add_word_ok.
  split; [constructor | constructor].
Qed.

Lemma categories_wf : Dict.wf (categories words_data).
Proof. apply categories_ok. Qed.

Lemma categories_lookup c :
  lookup (categories words_data) c = listings c words_data.
Proof. rewrite categories_fold. apply fold_add_word_lookup. Qed.

Lemma categories_keys c :
  In c (Dict.keys (categories words_data))
  <-> exists w cs, In (w, cs) words_data /\ In c cs.
Proof.
  rewrite categories_fold, fold_add_word_keys. simpl. tauto.
Qed.
End IndexInvariant.

Lemma mem_In c cs : mem c cs = true <-> In c cs.
Proof.
  unfold mem. rewrite existsb_exists. split.
  - intros (x & Hx & E). apply str_eqb_eq in E. now subst.
  - intros H. exists c. split; [assumption | apply str_eqb_refl].
Qed.

Lemma nodupb_NoDup l : nodupb l = true -> NoDup l.
Proof.
  induction l as [|x l IH]; simpl; [constructor|].
  rewrite andb_true_iff, negb_true_iff. intros [Hx Hl].
  constructor; [|auto].
  rewrite <- mem_In. congruence.
Qed.

Lemma count_notin w l : ~ In w l -> count w l = 0.
Proof.
  induction l as [|x l IH]; [reflexivity|].
  intros H. rewrite count_cons, IH.
  - eq_case w x; [exfalso; apply H; now left | reflexivity].
  - intros Hin; apply H; now right.
Qed.

Lemma count_NoDup c cs : NoDup cs -> count c cs = if mem c cs then 1 else 0.
Proof.
  induction 1 as [|x cs Hx Hnd IH]; [reflexivity|].
  rewrite count_cons. unfold mem in *; simpl.
  eq_case c x; simpl.
  - now rewrite count_notin.
  - exact IH.
Qed.

Lemma listings_NoDup c (words_data : dataset) :
  (forall w cs, In (w, cs) words_data -> NoDup cs) ->
  listings c words_data = words_listing c words_data.
Proof.
  unfold listings, words_listing.
  induction words_data as [|[w cs] d IH]; intros Hnd; [reflexivity|].
  simpl. rewrite count_NoDup by (apply (Hnd w); now left).
  rewrite IH by (intros w' cs' H; apply (Hnd w'); now right).
  now destruct (mem c cs).
Qed.

Lemma count_words_listing c (words_data : dataset) w cs :
  Dict.wf words_data -> In (w, cs) words_data -> In c cs ->
  count w (words_listing c words_data) = 1.
Proof.
  unfold Dict.wf, words_listing.
  induction words_data as [|[w0 cs0] d IH]; simpl; [tauto|].
  intros Hnd Hin Hc. inversion Hnd as [|? ? Hw0 Hd]; subst.
  destruct Hin as [[= -> ->]|Hin].
  - rewrite (proj2 (mem_In c cs) Hc). simpl.
    rewrite count_cons, str_eqb_refl, count_notin; [reflexivity|].
    intros H. apply Hw0. apply in_map_iff in H as (item & <- & H).
    apply filter_In in H. apply in_map, H.
  - assert (Hne : w <> w0).
    { intros ->. apply Hw0. change w0 with (fst (w0, cs)). now apply in_map. }
    destruct (mem c cs0); simpl; [rewrite count_cons|].
    + rewrite (proj2 (str_eqb_neq _ _) Hne). now apply IH.
    + now apply IH.
Qed.

(** C3 (index completeness).  In a dataset where no word lists a category
    twice, a word that lists [c] occurs exactly once in the list the index
    holds for [c], and that list is the words listing [c] in the order of
    the scan. *)
Theorem index_complete (words_data : dataset) :
  Dict.wf words_data ->
  (forall w cs, In (w, cs) words_data -> NoDup cs) ->
  forall w cs c, In (w, cs) words_data -> In c cs ->
  exists words,
    Dict.get (categories words_data) c = Some words
    /\ count w words = 1
    /\ words = words_listing c words_data.
Proof.
  intros Hwf Hnd w cs c Hin Hc.
  pose proof (categories_lookup words_data c) as L.
  rewrite listings_NoDup in L by assumption.
  unfold lookup in L.
  destruct (Dict.get (categories words_data) c) as [words|] eqn:G.
  - exists words. subst words. repeat split.
    eapply count_words_listing; eassumption.
  - exfalso. apply Dict_get_None in G. apply G.
    apply categories_keys; eauto.
Qed.

Lemma index_complete_witness :
  Dict.wf scenario
  /\ (forall w cs, In (w, cs) scenario -> NoDup cs)
  /\ In (py "ant", [py "Insect"; py "Pet"]) scenario
  /\ In (py "Pet") [py "Insect"; py "Pet"]
  /\ exists words,
       Dict.get (categories scenario) (py "Pet") = Some words
       /\ count (py "ant") words = 1
       /\ words = words_listing (py "Pet") scenario.
Proof.
  assert (Hwf : Dict.wf scenario) by (apply nodupb_NoDup; reflexivity).
  assert (Hnd : forall w cs, In (w, cs) scenario -> NoDup cs).
  { intros w cs H. apply nodupb_NoDup.
    repeat (destruct H as [[= <- <-]|H]; [reflexivity|]). destruct H. }
  assert (Hin : In (py "ant", [py "Insect"; py "Pet"]) scenario)
    by (right; right; left; reflexivity).
  assert (Hc : In (py "Pet") [py "Insect"; py "Pet"])
    by (right; left; reflexivity).
  repeat (split; [assumption|]).
  exact (@index_complete scenario Hwf Hnd _ _ _ Hin Hc).
Defined.

(** C9 (non-empty lists).  Every item of the index has at least one word,
    and its category is listed by some word of the dataset. *)
Theorem index_items_nonempty (words_data : dataset) :
  Forall (fun item : str * list str =>
            snd item <> []
            /\ exists w cs, In (w, cs) words_data /\ In (fst item) cs)
         (categories words_data).
Proof.
  destruct (categories_ok words_data) as [_ Hne].
  rewrite Forall_forall in *. intros [c words] Hin. split.
  - exact (Hne _ Hin).
  - apply categories_keys. now apply (in_map fst) in Hin.
Qed.

(** ** [sorted] (line 33) *)

Section Sorting.
Variable A : Type.
Variable key : A -> nat.

Lemma insert_by_perm x l : Permutation (insert_by key x l) (x :: l).
Proof.
  induction l as [|y l IH]; simpl; [reflexivity|].
  destruct (key x <=? key y); [reflexivity|].
  rewrite IH. apply perm_swap.
Qed.

Lemma sorted_perm l : Permutation (sorted key l) l.
Proof.
  induction l as [|x l IH]; simpl; [constructor|].
  rewrite insert_by_perm. now constructor.
Qed.

Lemma insert_by_sorted x l :
  StronglySorted (key_le key) l -> StronglySorted (key_le key) (insert_by key x l).
Proof.
  induction 1 as [|y l Hl IH Hy]; simpl.
  - repeat constructor.
  - destruct (key x <=? key y) eqn:E.
    + apply Nat.leb_le in E. constructor.
      * now constructor.
      * constructor; [exact E|].
        rewrite Forall_forall in *. intros z Hz.
        unfold key_le in *. specialize (Hy z Hz). lia.
    + apply Nat.leb_gt in E. constructor; [exact IH|].
      rewrite Forall_forall in *. intros z Hz.
      apply (Permutation_in _ (insert_by_perm x l)) in Hz.
      destruct Hz as [<-|Hz]; [unfold key_le; lia | auto].
Qed.

Lemma sorted_sorted l : StronglySorted (key_le key) (sorted key l).
Proof.
  induction l as [|x l IH]; simpl; [constructor|].
  now apply insert_by_sorted.
Qed.

Lemma insert_by_stable n x l :
  filter (has_key key n) (insert_by key x l) = filter (has_key key n) (x :: l).
Proof.
  induction l as [|y l IH]; [reflexivity|].
  simpl insert_by. destruct (key x <=? key y) eqn:E; [reflexivity|].
  apply Nat.leb_gt in E.
  cbn [filter]. rewrite IH. cbn [filter]. unfold has_key.
  destruct (key y =? n) eqn:Ey, (key x =? n) eqn:Ex; try reflexivity.
  apply Nat.eqb_eq in Ey, Ex. lia.
Qed.

(** Elements of equal key keep their relative order. *)
Lemma sorted_stable n l :
  filter (has_key key n) (sorted key l) = filter (has_key key n) l.
Proof.
  induction l as [|x l IH]; [reflexivity|].
  simpl sorted. rewrite insert_by_stable. simpl. now rewrite IH.
Qed.

Lemma filter_has_key_nil l : (forall n, filter (has_key key n) l = []) -> l = [].
Proof.
  destruct l as [|x l]; [reflexivity|].
  intros H. specialize (H (key x)). simpl in H.
  unfold has_key in H. now rewrite Nat.eqb_refl in H.
Qed.

Lemma filter_has_key_In n l x :
  In x (filter (has_key key n) l) -> In x l /\ key x = n.
Proof.
  rewrite filter_In. unfold has_key. now rewrite Nat.eqb_eq.
Qed.

(** An ordered list is determined by its elements of each key, in their
    order: every stable sort returns the list [sorted] returns. *)
Lemma stable_sort_unique l1 l2 :
  StronglySorted (key_le key) l1 -> StronglySorted (key_le key) l2 ->
  (forall n, filter (has_key key n) l1 = filter (has_key key n) l2) ->
  l1 = l2.
Proof.
  intros S1; revert l2.
  induction S1 as [|x l1 S1 IH Hx]; intros l2 S2 Hf.
  - symmetry. apply filter_has_key_nil. intros n. now rewrite <- Hf.
  - destruct S2 as [|y l2 S2 Hy].
    + specialize (Hf (key x)). simpl in Hf.
      unfold has_key in Hf. now rewrite Nat.eqb_refl in Hf.
    + assert (Hxy : key x = key y).
      { rewrite Forall_forall in Hx, Hy. unfold key_le in *.
        apply Nat.le_antisymm.
        - assert (Hin : In y (filter (has_key key (key y)) (x :: l1))).
          { rewrite Hf. simpl. unfold has_key at 1.
            rewrite Nat.eqb_refl. now left. }
          apply filter_has_key_In in Hin as [[<-|Hin] _]; auto.
        - assert (Hin : In x (filter (has_key key (key x)) (y :: l2))).
          { rewrite <- Hf. simpl. unfold has_key at 1.
            rewrite Nat.eqb_refl. now left. }
          apply filter_has_key_In in Hin as [[<-|Hin] _]; auto. }
      assert (Hhead : x = y /\ forall n, filter (has_key key n) l1 = filter (has_key key n) l2).
      { split.
        - specialize (Hf (key x)). simpl in Hf. unfold has_key in Hf.
          rewrite <- Hxy, Nat.eqb_refl in Hf. congruence.
        - intros n. specialize (Hf n). simpl in Hf. unfold has_key in Hf.
          rewrite <- Hxy in Hf. fold (has_key key n) in Hf.
          destruct (key x =? n); congruence. }
      destruct Hhead as [-> Htail]. f_equal. now apply IH.
Qed.

Lemma sorted_unique l l' :
  StronglySorted (key_le key) l' ->
  (forall n, filter (has_key key n) l' = filter (has_key key n) l) ->
  l' = sorted key l.
Proof.
  intros S H. apply stable_sort_unique; [assumption | apply sorted_sorted |].
  intros n. now rewrite sorted_stable.
Qed.
End Sorting.

(** ** The filter and the output mapping (lines 22-47) *)

Lemma small_of_acc (cats acc : index) :
  NoDup (Dict.keys acc ++ Dict.keys cats) ->
  fold_left
    (fun small (item : str * list str) =>
       let (category, words) := item in
       if is_small category words then Dict.set small category words else small)
    cats acc
  = acc ++ filter small_item cats.
Proof.
  revert acc; induction cats as [|[c ws] cats IH]; intros acc Hnd.
  - simpl. now rewrite app_nil_r.
  - cbn [fold_left filter]. unfold small_item at 1. cbn [fst snd].
    simpl in Hnd.
    pose proof (NoDup_remove_1 _ _ _ Hnd) as Hrest.
    pose proof (NoDup_remove_2 _ _ _ Hnd) as Hfresh.
    destruct (is_small c ws).
    + rewrite Dict_set_fresh by (intros H; apply Hfresh, in_or_app; now left).
      rewrite IH.
      * now rewrite <- app_assoc.
      * unfold Dict.keys in *. rewrite map_app, <- app_assoc. exact Hnd.
    + now apply IH.
Qed.

(** On a dictionary, the loop of lines 24-30 is a filter: the items kept are
    in the order of the index. *)
Lemma small_of_filter (cats : index) :
  Dict.wf cats -> small_of cats = filter small_item cats.
Proof. intros H. unfold small_of. now rewrite small_of_acc. Qed.

Lemma wf_filter (V : Type) (f : str * V -> bool) (d : Dict.t V) :
  Dict.wf d -> Dict.wf (filter f d).
Proof.
  unfold Dict.wf, Dict.keys.
  induction d as [|item d IH]; simpl; intros H; [constructor|].
  inversion H as [|? ? Hx Hd]; subst.
  destruct (f item); simpl; [|auto].
  constructor; [|auto].
  intros Hin. apply Hx. apply in_map_iff in Hin as (y & <- & Hy).
  apply filter_In in Hy. apply in_map, Hy.
Qed.

Lemma thin_of_wf (l : list (str * list str)) : Dict.wf l -> thin_of l = l.
Proof.
  intros H. rewrite <- (Dict_of_pairs_wf H) at 2.
  unfold thin_of, Dict.of_pairs. generalize (@Dict.empty (list str)).
  induction l as [|[c ws] l IH]; intros acc; simpl; [reflexivity|].
  apply IH. now inversion H.
Qed.

Lemma wf_perm (V : Type) (d d' : Dict.t V) :
  Permutation d d' -> Dict.wf d -> Dict.wf d'.
Proof.
  unfold Dict.wf, Dict.keys. intros P.
  apply Permutation_NoDup. now apply Permutation_map.
Qed.

Section Pipeline.
Variable words_data : dataset.

Lemma small_categories_filter :
  small_categories words_data = filter small_item (categories words_data).
Proof. apply small_of_filter, categories_wf. Qed.

Lemma small_categories_wf : Dict.wf (small_categories words_data).
Proof. rewrite small_categories_filter. apply wf_filter, categories_wf. Qed.

Lemma sorted_small_categories_wf : Dict.wf (sorted_small_categories words_data).
Proof.
  eapply wf_perm; [|exact small_categories_wf].
  symmetry. apply sorted_perm.
Qed.

(** The dictionary written is the sorted sequence itself. *)
Lemma thin_categories_sorted :
  thin_categories words_data = sorted_small_categories words_data.
Proof. apply thin_of_wf, sorted_small_categories_wf. Qed.

Lemma thin_categories_wf : Dict.wf (thin_categories words_data).
Proof. rewrite thin_categories_sorted. apply sorted_small_categories_wf. Qed.

Lemma thin_categories_In c words :
  In (c, words) (thin_categories words_data)
  <-> In (c, words) (categories words_data) /\ is_small c words = true.
Proof.
  rewrite thin_categories_sorted. unfold sorted_small_categories.
  rewrite small_categories_filter. split.
  - intros H. apply (Permutation_in _ (sorted_perm _ _)) in H.
    now apply filter_In in H.
  - intros H. apply (Permutation_in _ (Permutation_sym (sorted_perm _ _))).
    now apply filter_In.
Qed.
End Pipeline.

Lemma is_small_spec c words :
  is_small c words = true
  <-> length words < 4
      /\ startswith c Starts_with = false
      /\ startswith c Ends_with = false.
Proof.
  unfold is_small.
  rewrite !andb_true_iff, !negb_true_iff, Nat.ltb_lt. tauto.
Qed.

(** C2 (thin filter).  A category is a key of the thin-categories result
    exactly when the index holds for it a list of fewer than four words and
    its name starts with neither reserved prefix; the result maps it to the
    list the index holds. *)
Theorem thin_filter_correct (words_data : dataset) (c : str) :
  (In c (Dict.keys (thin_categories words_data))
   <-> exists words,
         Dict.get (categories words_data) c = Some words
         /\ length words < 4
         /\ startswith c Starts_with = false
         /\ startswith c Ends_with = false)
  /\ (forall words,
        Dict.get (thin_categories words_data) c = Some words
        <-> Dict.get (categories words_data) c = Some words
            /\ is_small c words = true).
Proof.
  assert (Hget : forall words,
             Dict.get (thin_categories words_data) c = Some words
             <-> Dict.get (categories words_data) c = Some words
                 /\ is_small c words = true).
  { intros words. split.
    - intros H. apply Dict_get_In, thin_categories_In in H as [H1 H2].
      split; [|exact H2]. apply Dict_In_get; [apply categories_wf | exact H1].
    - intros [H1 H2]. apply Dict_In_get; [apply thin_categories_wf|].
      apply thin_categories_In. split; [|exact H2]. now apply Dict_get_In. }
  split; [|exact Hget]. split.
  - intros H.
    destruct (Dict.get (thin_categories words_data) c) as [words|] eqn:G.
    + destruct (proj1 (Hget words) eq_refl) as [G1 G2]. exists words.
      split; [exact G1 | now apply is_small_spec].
    + apply Dict_get_None in G. contradiction.
  - intros (words & G & Hs). eapply Dict_get_keys.
    apply Hget. split; [exact G | now apply is_small_spec].
Qed.



(** ** The reserved families *)

Lemma excluded_not_small c words : excluded c = true -> is_small c words = false.
Proof.
  unfold excluded, is_small. intros H.
  destruct (startswith c Starts_with), (startswith c Ends_with);
    try discriminate; now rewrite ?andb_false_r.
Qed.

Lemma total_of_remove (cats : index) k :
  excluded k = true -> total_of (remove cats k) = total_of cats.
Proof.
  intros Hk. unfold total_of, remove, Dict.keys.
  induction cats as [|[c ws] cats IH]; [reflexivity|].
  cbn [filter map fst negb]. eq_case c k; cbn [negb map filter fst].
  - unfold excluded in Hk.
    destruct (startswith k Starts_with), (startswith k Ends_with);
      try discriminate; exact IH.
  - destruct (negb (startswith c Starts_with) && negb (startswith c Ends_with));
      simpl; now rewrite IH.
Qed.

Lemma small_of_remove (cats : index) k :
  Dict.wf cats -> excluded k = true ->
  small_of (remove cats k) = small_of cats.
Proof.
  intros Hwf Hk.
  rewrite !small_of_filter by (try apply wf_filter; assumption).
  unfold remove. clear Hwf.
  induction cats as [|[c ws] cats IH]; [reflexivity|].
  cbn [filter fst]. unfold small_item at 2. cbn [fst snd].
  eq_case c k; cbn [negb filter].
  - now rewrite excluded_not_small by exact Hk.
  - unfold small_item at 1. cbn [fst snd].
    destruct (is_small c ws); now rewrite IH.
Qed.

(** A category of a reserved family is no key of the result, and the counts
    of the summary are those of the index without it. *)
Lemma excluded_not_counted (words_data : dataset) k :
  excluded k = true ->
  ~ In k (Dict.keys (thin_categories words_data))
  /\ total_categories words_data = total_of (remove (categories words_data) k)
  /\ length (sorted_small_categories words_data)
     = length (sorted by_size (small_of (remove (categories words_data) k))).
Proof.
  intros Hk. repeat split.
  - intros H. apply in_map_iff in H as ([c ws] & E & H). simpl in E; subst c.
    apply thin_categories_In in H as [_ H].
    rewrite excluded_not_small in H by exact Hk. discriminate.
  - unfold total_categories. now rewrite total_of_remove.
  - unfold sorted_small_categories, small_categories.
    now rewrite small_of_remove by (auto using categories_wf).
Qed.

Lemma remove_present (V : Type) (d : Dict.t V) k v :
  Dict.wf d -> Dict.get d k = Some v -> length (remove d k) + 1 = length d.
Proof.
  unfold Dict.wf, remove.
  induction d as [|[k0 v0] d IH]; simpl; [discriminate|].
  intros Hnd Hget. inversion Hnd as [|? ? Hk0 Hd]; subst.
  eq_case k0 k; simpl.
  - rewrite Nat.add_1_r. f_equal.
    clear IH Hget Hnd Hd. induction d as [|[k1 v1] d IH]; [reflexivity|].
    simpl in *. rewrite (proj2 (str_eqb_neq k1 k)) by tauto.
    simpl. f_equal. apply IH. tauto.
  - f_equal. now apply IH.
Qed.

(** C8 (exclusion).  When the index holds exactly one word for the category
    "Starts with A", that category is an item of the index but no key of the
    thin-categories output, and the 'total' and 'thin' counts of the summary
    are the counts obtained from the index with that item deleted. *)
Theorem starts_with_A_not_counted (words_data : dataset) (w : str) :
  Dict.get (categories words_data) (py "Starts with A") = Some [w] ->
  ~ In (py "Starts with A") (Dict.keys (thin_categories words_data))
  /\ length (remove (categories words_data) (py "Starts with A")) + 1
     = length (categories words_data)
  /\ total_categories words_data
     = total_of (remove (categories words_data) (py "Starts with A"))
  /\ length (sorted_small_categories words_data)
     = length (sorted by_size
                 (small_of (remove (categories words_data) (py "Starts with A")))).
Proof.
  intros Hget.
  destruct (@excluded_not_counted words_data (py "Starts with A") eq_refl)
    as (Hthin & Htotal & Hsmall).
  repeat split; try assumption.
  eapply remove_present; [apply categories_wf | exact Hget].
Qed.

Lemma starts_with_A_not_counted_witness :
  Dict.get (categories apple) (py "Starts with A") = Some [py "apple"]
  /\ ~ In (py "Starts with A") (Dict.keys (thin_categories apple))
  /\ length (remove (categories apple) (py "Starts with A")) + 1
     = length (categories apple)
  /\ total_categories apple
     = total_of (remove (categories apple) (py "Starts with A"))
  /\ length (sorted_small_categories apple)
     = length (sorted by_size
                 (small_of (remove (categories apple) (py "Starts with A")))).
Proof.
  split; [reflexivity|].
  apply (@starts_with_A_not_counted apple (py "apple")). reflexivity.
Defined.

(** ** The run: what is printed, written and raised *)

Section Effects.
Variables A B : Type.

Lemma effect_ret (a : A) : effect_of (ret a) (Returned a) [] [].
Proof. intros [out fs]. unfold ret. simpl. now rewrite app_nil_r. Qed.

Lemma effect_raise (e : exn) : effect_of (@raise A e) (Raised e) [] [].
Proof. intros [out fs]. unfold raise. simpl. now rewrite app_nil_r. Qed.

Lemma effect_bind (c : run A) (k : A -> run B) a r o1 o2 w1 w2 :
  effect_of c (Returned a) o1 w1 ->
  effect_of (k a) r o2 w2 ->
  effect_of (bind c k) r (o1 ++ o2) (w1 ++ w2).
Proof.
  intros Hc Hk w. unfold bind. rewrite Hc, Hk. simpl.
  now rewrite fold_left_app, app_assoc.
Qed.

Lemma effect_bind_raised (c : run A) (k : A -> run B) e o1 w1 :
  effect_of c (Raised e) o1 w1 ->
  effect_of (bind c k) (Raised e) o1 w1.
Proof. intros Hc w. unfold bind. now rewrite Hc. Qed.
End Effects.

Lemma effect_write_file path content :
  effect_of (write_file path content) (Returned tt) [] [(path, content)].
Proof. intros w. unfold write_file. simpl. now rewrite app_nil_r. Qed.

Lemma effect_truediv a b :
  effect_of (truediv a b)
            (if b =? 0 then Raised ZeroDivisionError
             else Returned (PrimFloat.div (float_of_nat a) (float_of_nat b)))
            [] [].
Proof.
  unfold truediv. destruct (b =? 0); [apply effect_raise | apply effect_ret].
Qed.

(** The result of a computation with a known effect, from any world. *)
Lemma effect_result (A : Type) (c : run A) r out writes w :
  effect_of c r out writes -> fst (c w) = r.
Proof. intros H. now rewrite H. Qed.

Lemma effect_out (A : Type) (c : run A) r out writes :
  effect_of c r out writes -> out = stdout (snd (c no_world)).
Proof. intros H. now rewrite H. Qed.

Lemma effect_writes (A : Type) (c : run A) r out writes writes' :
  effect_of c r out writes -> writes = writes' -> effect_of c r out writes'.
Proof. now intros H <-. Qed.

Lemma effect_outs (A : Type) (c : run A) r out out' writes :
  effect_of c r out writes -> out = out' -> effect_of c r out' writes.
Proof. now intros H <-. Qed.

(** *** What can be printed *)

Lemma encodable_app a b : encodable (a ++ b) = encodable a && encodable b.
Proof. apply forallb_app. Qed.

Lemma encodable_digits u :
  encodable (py (DecimalString.NilEmpty.string_of_uint u)) = true.
Proof. induction u; simpl; auto. Qed.

Lemma encodable_str_of_nat n : encodable (str_of_nat n) = true.
Proof. apply encodable_digits. Qed.

Lemma encodable_format_1f x : encodable (format_1f x) = true.
Proof.
  unfold format_1f, str_of_Z.
  destruct (Prim2SF x) as [s|s| |s m z]; try destruct s;
    rewrite ?encodable_app, ?encodable_str_of_nat; reflexivity.
Qed.

(** The texts the script prints besides the names and the words. *)
Ltac enc :=
  rewrite ?encodable_app, ?encodable_str_of_nat, ?encodable_format_1f;
  reflexivity.

Lemma encodable_join sep l :
  encodable sep = true -> encodable (join sep l) = forallb encodable l.
Proof.
  intros Hsep. induction l as [|x l IH]; [reflexivity|].
  destruct l as [|y l].
  - cbn [join forallb]. now rewrite andb_true_r.
  - change (join sep (x :: y :: l)) with (x ++ sep ++ join sep (y :: l)).
    rewrite !encodable_app, Hsep, IH. reflexivity.
Qed.

(** A line of the loop can be printed exactly when the name of the category
    and its words can. *)
Lemma encodable_category_line item :
  encodable (category_line item)
  = encodable (fst item) && forallb encodable (snd item).
Proof.
  destruct item as [c words]. unfold category_line. cbn [fst snd].
  rewrite !encodable_app, encodable_str_of_nat, encodable_join by reflexivity.
  reflexivity.
Qed.

(** *** The statements of the script *)

Lemma effect_print s :
  encodable s = true -> effect_of (print s) (Returned tt) (s ++ [LF]) [].
Proof. intros H w. unfold print. now rewrite H. Qed.

Lemma effect_print_fails s :
  encodable s = false -> effect_of (print s) (Raised UnicodeEncodeError) [] [].
Proof.
  intros H [out fs]. unfold print. rewrite H. simpl. now rewrite app_nil_r.
Qed.

Lemma effect_for_each (A : Type) (l : list A) (text : A -> str) :
  forallb (fun x => encodable (text x)) l = true ->
  effect_of (for_each l (fun x => print (text x))) (Returned tt)
            (flat_map (fun x => text x ++ [LF]) l) [].
Proof.
  induction l as [|x l IH]; cbn [forallb for_each flat_map]; intros H.
  - apply effect_ret.
  - apply andb_true_iff in H as [Hx Hl].
    change (@nil (str * str)) with (@nil (str * str) ++ []).
    eapply effect_bind; [now apply effect_print | now apply IH].
Qed.

(** The loop stops at the first line that cannot be printed. *)
Lemma effect_for_each_fails (A : Type) (l : list A) (text : A -> str) :
  forallb (fun x => encodable (text x)) l = false ->
  exists pre x post,
    l = pre ++ x :: post
    /\ effect_of (for_each l (fun x => print (text x)))
                 (Raised UnicodeEncodeError)
                 (flat_map (fun x => text x ++ [LF]) pre) [].
Proof.
  induction l as [|x l IH]; cbn [forallb for_each]; intros H; [discriminate|].
  destruct (encodable (text x)) eqn:Hx.
  - cbn [andb] in H. destruct (IH H) as (pre & y & post & -> & Heff).
    exists (x :: pre), y, post. split; [reflexivity|].
    cbn [flat_map]. change (@nil (str * str)) with (@nil (str * str) ++ []).
    eapply effect_bind; [now apply effect_print | exact Heff].
  - exists [], x, l. split; [reflexivity|].
    apply effect_bind_raised. now apply effect_print_fails.
Qed.

(** One step of the script after the other. *)
Ltac step :=
  first
    [ eapply effect_bind; [apply effect_print; enc|]
    | eapply effect_bind; [apply effect_write_file|] ].

(** The run, from any world.  It prints a heading, then the lines of an
    initial part of the sorted thin categories: all of them when every line
    can be printed, and then it writes the file, prints the summary and ends
    with the division; the part before the first line that cannot be printed
    otherwise, and then it ends there. *)
Lemma analyze_categories_run (words_data : dataset) :
  exists head printed rest tail,
    sorted_small_categories words_data = printed ++ rest
    /\ (lines_encodable words_data = true -> rest = [])
    /\ effect_of (analyze_categories words_data) (outcome words_data)
                 (head ++ category_lines printed ++ tail)
                 (written words_data).
Proof.
  unfold outcome, written, analyze_categories.
  pose proof (effect_truediv (usable_of (categories words_data))
                             (total_of (categories words_data))) as Hdiv.
  fold (total_categories words_data) in Hdiv.
  destruct (lines_encodable words_data) eqn:E.
  - destruct (total_categories words_data =? 0);
      (eexists; exists (sorted_small_categories words_data), []; eexists;
       split; [now rewrite app_nil_r|]; split; [reflexivity|]).
    + eapply effect_outs; [eapply effect_writes|].
      * do 2 step. eapply effect_bind; [apply effect_for_each; exact E|].
        repeat step. eapply effect_bind_raised. exact Hdiv.
      * reflexivity.
      * unfold category_lines, sorted_small_categories, small_categories.
        rewrite app_assoc. reflexivity.
    + eapply effect_outs; [eapply effect_writes|].
      * do 2 step. eapply effect_bind; [apply effect_for_each; exact E|].
        repeat step. eapply effect_bind; [exact Hdiv|].
        apply effect_print. enc.
      * reflexivity.
      * unfold category_lines, sorted_small_categories, small_categories.
        rewrite app_assoc. reflexivity.
  - destruct (effect_for_each_fails _ _ E) as (pre & x & post & Hl & Hfail).
    eexists. exists pre, (x :: post), []. split; [exact Hl|].
    split; [discriminate|].
    eapply effect_outs; [eapply effect_writes|].
    + do 2 step. eapply effect_bind_raised. exact Hfail.
    + reflexivity.
    + unfold category_lines. rewrite app_nil_r, app_assoc. reflexivity.
Qed.

Lemma analyze_categories_effect (words_data : dataset) :
  exists out,
    effect_of (analyze_categories words_data) (outcome words_data) out
              (written words_data).
Proof.
  destruct (analyze_categories_run words_data)
    as (head & printed & rest & tail & _ & _ & H).
  eauto.
Qed.

Lemma analyze_categories_result (words_data : dataset) (w : world) :
  fst (analyze_categories words_data w) = outcome words_data.
Proof.
  destruct (analyze_categories_effect words_data) as [out H].
  exact (effect_result w H).
Qed.

(** The file of the thin categories after the run. *)
Lemma analyze_categories_file (words_data : dataset) (w : world) :
  Dict.get (files (snd (analyze_categories words_data w))) thin_path
  = if lines_encodable words_data
    then Some (json_dumps (thin_categories words_data))
    else Dict.get (files w) thin_path.
Proof.
  destruct (analyze_categories_effect words_data) as [out H].
  rewrite (H w). unfold written.
  destruct (lines_encodable words_data); cbn [snd files fold_left fst].
  - now rewrite Dict_get_set, str_eqb_refl.
  - reflexivity.
Qed.

(** C4 (sort order).  The thin categories are produced in the order of the
    sort: the lengths of the word lists never decrease along the sequence,
    the sequence is a rearrangement of the categories of the index with
    fewer than four words and a name outside the reserved families, and
    categories of one length come in the order in which the index (hence the
    scan) met them.  The lines the run prints are those of an initial part of
    that sequence, in order, and what it writes is that sequence: the whole
    of it is printed and written unless [print] fails on a line. *)
Theorem thin_sorted_stable (words_data : dataset) :
  thin_categories words_data = sorted_small_categories words_data
  /\ StronglySorted
       (fun a b : str * list str => length (snd a) <= length (snd b))
       (thin_categories words_data)
  /\ Permutation
       (thin_categories words_data)
       (filter (fun item : str * list str =>
                  (length (snd item) <? 4) && negb (excluded (fst item)))
               (categories words_data))
  /\ (forall n,
        filter (fun item : str * list str => length (snd item) =? n)
               (thin_categories words_data)
        = filter (fun item : str * list str => length (snd item) =? n)
                 (filter (fun item : str * list str =>
                            (length (snd item) <? 4)
                            && negb (excluded (fst item)))
                         (categories words_data)))
  /\ exists head printed rest tail r writes,
       thin_categories words_data = printed ++ rest
       /\ effect_of (analyze_categories words_data) r
                    (head ++ category_lines printed ++ tail) writes
       /\ ((rest = []
            /\ writes = [(thin_path, json_dumps (thin_categories words_data))])
           \/ (r = Raised UnicodeEncodeError /\ writes = [])).
Proof.
  assert (Hfilter : filter (fun item : str * list str =>
                              (length (snd item) <? 4)
                              && negb (excluded (fst item)))
                           (categories words_data)
                    = filter small_item (categories words_data)).
  { apply filter_ext. intros [c words].
    unfold small_item, is_small, excluded. cbn [fst snd].
    now rewrite negb_orb, andb_assoc. }
  rewrite Hfilter.
  split; [apply thin_categories_sorted|].
  split; [|split; [|split]].
  - rewrite thin_categories_sorted.
    exact (sorted_sorted by_size (small_categories words_data)).
  - rewrite thin_categories_sorted. unfold sorted_small_categories.
    rewrite small_categories_filter. apply sorted_perm.
  - intros n. rewrite thin_categories_sorted. unfold sorted_small_categories.
    rewrite small_categories_filter.
    exact (sorted_stable by_size n (filter small_item (categories words_data))).
  - destruct (analyze_categories_run words_data)
      as (head & printed & rest & tail & Hl & Hrest & H).
    exists head, printed, rest, tail, (outcome words_data), (written words_data).
    split; [now rewrite thin_categories_sorted|]. split; [exact H|].
    unfold outcome, written.
    destruct (lines_encodable words_data); [left | right]; auto.
Qed.

(** ** The summary (lines 56-81) *)

Lemma total_of_excluded (cats : index) :
  total_of cats = length (filter (fun c => negb (excluded c)) (Dict.keys cats)).
Proof.
  unfold total_of, excluded. f_equal. apply filter_ext.
  intros c. now rewrite negb_orb.
Qed.

(** What line 64-74 count: every list of four words or more when no key of
    the index is of a reserved family, nothing otherwise. *)
Lemma usable_of_spec (cats : index) :
  usable_of cats
  = if existsb excluded (Dict.keys cats) then 0
    else length (filter (fun w => 4 <=? length w) (Dict.values cats)).
Proof.
  unfold usable_of. fold excluded.
  change (fun c => startswith c Starts_with || startswith c Ends_with)
    with excluded.
  destruct (existsb excluded (Dict.keys cats)); simpl.
  - induction (Dict.values cats) as [|w l IH]; [reflexivity|].
    simpl. now rewrite andb_false_r.
  - f_equal. apply filter_ext. intros w. now rewrite andb_true_r.
Qed.

(** The count the specification intends adds up with the thin count. *)
Lemma intended_summary_arithmetic (words_data : dataset) :
  usable_intended (categories words_data)
  + length (sorted_small_categories words_data)
  = total_categories words_data.
Proof.
  unfold sorted_small_categories, total_categories.
  rewrite (Permutation_length (sorted_perm _ _)), small_categories_filter.
  rewrite total_of_excluded. unfold usable_intended, Dict.keys.
  induction (categories words_data) as [|[c ws] cats IH]; [reflexivity|].
  cbn [filter map fst snd]. unfold small_item at 1, is_small. cbn [fst snd].
  rewrite <- andb_assoc, <- negb_orb. fold (excluded c).
  destruct (excluded c); cbn [negb]; rewrite ?andb_false_r, ?andb_true_r.
  - exact IH.
  - destruct (Nat.ltb_spec (length ws) 4) as [L|L].
    + rewrite (proj2 (Nat.leb_gt _ _) L). cbn [length]. lia.
    + rewrite (proj2 (Nat.leb_le _ _) L). cbn [length]. lia.
Qed.

(** C1 (summary statistics), at a dataset with a category of four words and
    a reserved category.  One category is outside the reserved families and
    it has four words: the specification's usable count is 1 and adds up with
    the thin count to the total.  The script counts no usable category, so
    that usable + thin differs from the total, and prints 0.0%. *)
Theorem usable_count_diverges :
  categories four_and_reserved
  = [ (py "X", [py "a"; py "b"; py "c"; py "d"]);
      (py "Starts with A", [py "a"]) ]
  /\ total_categories four_and_reserved = 1
  /\ length (sorted_small_categories four_and_reserved) = 0
  /\ usable_intended (categories four_and_reserved) = 1
  /\ usable_categories four_and_reserved = 0
  /\ usable_categories four_and_reserved
     + length (sorted_small_categories four_and_reserved)
     <> total_categories four_and_reserved
  /\ analyze_categories four_and_reserved no_world
     = (Returned tt,
        {| stdout :=
             lines
               [ py "Found 0 categories with fewer than 4 items (excluding 'Starts with' and 'Ends with'):";
                 py "================================================================================";
                 py "";
                 py "Saved 0 thin categories to data/thin_categories.json";
                 py "";
                 py "================================================================================";
                 py "Summary (excluding 'Starts with' and 'Ends with'):";
                 py "Total categories: 1";
                 py "Categories with 4+ items (usable): 0";
                 py "Categories with <4 items (need expansion): 0";
                 py "Usable percentage: 0.0%" ];
           files := [(thin_path, py "{}")] |}).
Proof.
  repeat split; try (vm_compute; reflexivity).
  vm_compute. discriminate.
Qed.

Lemma no_total_no_thin (words_data : dataset) :
  total_categories words_data = 0 -> sorted_small_categories words_data = [].
Proof.
  intros Ht. pose proof (intended_summary_arithmetic words_data).
  apply length_zero_iff_nil. lia.
Qed.

(** The lines can be printed exactly when the names and the words of the
    thin categories can. *)
Lemma lines_encodable_thin (words_data : dataset) :
  lines_encodable words_data
  = forallb (fun item : str * list str =>
               encodable (fst item) && forallb encodable (snd item))
            (thin_categories words_data).
Proof.
  rewrite thin_categories_sorted. unfold lines_encodable.
  induction (sorted_small_categories words_data) as [|item l IH];
    [reflexivity|].
  cbn [forallb]. now rewrite encodable_category_line, IH.
Qed.



(** C7 (scenario).  On the dataset of the scenario the index, the thin
    categories and the counts are the ones stated, and from any world the run
    returns, prints the report below and writes the three categories in the
    stated order. *)
Theorem scenario_report :
  categories scenario
  = [ (py "Fruit", [py "cat"]);
      (py "Pet", [py "dog"; py "ant"]);
      (py "Insect", [py "ant"]) ]
  /\ thin_categories scenario
     = [ (py "Fruit", [py "cat"]);
         (py "Insect", [py "ant"]);
         (py "Pet", [py "dog"; py "ant"]) ]
  /\ total_categories scenario = 3
  /\ usable_categories scenario = 0
  /\ length (sorted_small_categories scenario) = 3
  /\ effect_of (analyze_categories scenario) (Returned tt)
       (lines
          [ py "Found 3 categories with fewer than 4 items (excluding 'Starts with' and 'Ends with'):";
            py "================================================================================";
            py "Fruit (1 items): cat";
            py "Insect (1 items): ant";
            py "Pet (2 items): dog, ant";
            py "";
            py "Saved 3 thin categories to data/thin_categories.json";
            py "";
            py "================================================================================";
            py "Summary (excluding 'Starts with' and 'Ends with'):";
            py "Total categories: 3";
            py "Categories with 4+ items (usable): 0";
            py "Categories with <4 items (need expansion): 3";
            py "Usable percentage: 0.0%" ])
       [ (thin_path,
          json_dumps [ (py "Fruit", [py "cat"]);
                       (py "Insect", [py "ant"]);
                       (py "Pet", [py "dog"; py "ant"]) ]) ]
  /\ json_loads (json_dumps (thin_categories scenario))
     = Some (thin_categories scenario).
Proof.
  repeat split; try (vm_compute; reflexivity).
  destruct (analyze_categories_effect scenario) as [out H].
  pose proof (effect_out H) as E. subst out.
  replace (outcome scenario) with (Returned tt) in H
    by (vm_compute; reflexivity).
  eapply effect_writes.
  - match type of H with
    | effect_of _ _ ?o _ =>
        replace o with
          (lines
          [ py "Found 3 categories with fewer than 4 items (excluding 'Starts with' and 'Ends with'):";
            py "================================================================================";
            py "Fruit (1 items): cat";
            py "Insect (1 items): ant";
            py "Pet (2 items): dog, ant";
            py "";
            py "Saved 3 thin categories to data/thin_categories.json";
            py "";
            py "================================================================================";
            py "Summary (excluding 'Starts with' and 'Ends with'):";
            py "Total categories: 3";
            py "Categories with 4+ items (usable): 0";
            py "Categories with <4 items (need expansion): 3";
            py "Usable percentage: 0.0%" ]) in H
          by (vm_compute; reflexivity)
    end.
    exact H.
  - vm_compute. reflexivity.
Qed.


(** ** The JSON text: escapes *)

Ltac nlia := zify; Z.to_euclidean_division_equations; lia.

(** The tests of the encoder and of the decoder, as facts. *)
Ltac ntest :=
  match goal with
  | |- context [N.eqb ?a ?b] => destruct (N.eqb_spec a b)
  | |- context [N.leb ?a ?b] => destruct (N.leb_spec a b)
  | |- context [N.ltb ?a ?b] => destruct (N.ltb_spec a b)
  end.

Lemma below_forallb (f : N -> bool) (b : nat) :
  forallb f (map N.of_nat (seq 0 b)) = true ->
  forall x, (x < N.of_nat b)%N -> f x = true.
Proof.
  intros H x Hx. rewrite forallb_forall in H. apply H.
  apply in_map_iff. exists (N.to_nat x). split.
  - apply N2Nat.id.
  - apply in_seq. lia.
Qed.

Lemma hex_value_digit x : (x < 16)%N -> hex_value (hex_digit x) = Some x.
Proof.
  intros H.
  pose proof (@below_forallb
                (fun x => match hex_value (hex_digit x) with
                          | Some y => N.eqb y x
                          | None => false
                          end) 16 eq_refl x H) as E.
  simpl in E. destruct (hex_value (hex_digit x)); [|discriminate].
  apply N.eqb_eq in E. now subst.
Qed.

Lemma shiftr_4 n : N.shiftr n 4 = (n / 16)%N.
Proof. now rewrite N.shiftr_div_pow2. Qed.

Lemma shiftr_8 n : N.shiftr n 8 = (n / 256)%N.
Proof. now rewrite N.shiftr_div_pow2. Qed.

Lemma shiftr_12 n : N.shiftr n 12 = (n / 4096)%N.
Proof. now rewrite N.shiftr_div_pow2. Qed.

Lemma shiftr_10 n : N.shiftr n 10 = (n / 1024)%N.
Proof. now rewrite N.shiftr_div_pow2. Qed.

Lemma land_15 n : N.land n 15 = (n mod 16)%N.
Proof. change 15%N with (N.ones 4). now rewrite N.land_ones. Qed.

Lemma land_1023 n : N.land n 1023 = (n mod 1024)%N.
Proof. change 1023%N with (N.ones 10). now rewrite N.land_ones. Qed.

Lemma lor_shiftl_low a b k :
  (b < 2 ^ k)%N -> N.lor (N.shiftl a k) b = (a * 2 ^ k + b)%N.
Proof.
  intros Hb.
  assert (Hland : N.land (N.shiftl a k) b = 0%N).
  { apply N.bits_inj_0. intros n. rewrite N.land_spec.
    destruct (N.lt_ge_cases n k) as [L|L].
    - now rewrite N.shiftl_spec_low.
    - destruct (N.eq_dec b 0) as [->|Hb0].
      + now rewrite N.bits_0, andb_false_r.
      + rewrite (N.bits_above_log2 b n), andb_false_r; [reflexivity|].
        apply N.lt_le_trans with k; [|exact L].
        apply N.log2_lt_pow2; [lia | exact Hb]. }
  rewrite <- N.lxor_lor by exact Hland.
  rewrite <- N.add_nocarry_lxor by exact Hland.
  now rewrite N.shiftl_mul_pow2.
Qed.

Lemma lor_high x : (x < 1024)%N -> N.lor 55296 x = (55296 + x)%N.
Proof.
  intros H. change 55296%N with (N.shiftl 54 10).
  rewrite lor_shiftl_low by exact H. reflexivity.
Qed.

Lemma lor_low x : (x < 1024)%N -> N.lor 56320 x = (56320 + x)%N.
Proof.
  intros H. change 56320%N with (N.shiftl 55 10).
  rewrite lor_shiftl_low by exact H. reflexivity.
Qed.

(** The decoder reads back the four digits the encoder writes. *)
Lemma decode_u_escape n :
  (n < 65536)%N ->
  exists h1 h2 h3 h4,
    u_escape n = [BACKSLASH; 117%N; h1; h2; h3; h4]
    /\ decode_uXXXX h1 h2 h3 h4 = Some n.
Proof.
  intros H. unfold u_escape. do 4 eexists. split; [reflexivity|].
  unfold decode_uXXXX.
  rewrite shiftr_12, shiftr_8, shiftr_4, !land_15.
  rewrite !hex_value_digit by nlia.
  f_equal. nlia.
Qed.

Lemma join_surrogates_split c :
  (65536 <= c < 1114112)%N ->
  let n := (c - 65536)%N in
  let s1 := N.lor 55296 (N.land (N.shiftr n 10) 1023) in
  let s2 := N.lor 56320 (N.land n 1023) in
  is_high_surrogate s1 = true
  /\ is_low_surrogate s2 = true
  /\ (s1 < 65536)%N /\ (s2 < 65536)%N
  /\ join_surrogates s1 s2 = c.
Proof.
  intros H n s1 s2. subst s1 s2.
  rewrite shiftr_10, !land_1023.
  rewrite lor_high, lor_low by nlia.
  unfold is_high_surrogate, is_low_surrogate, join_surrogates.
  repeat split.
  - apply andb_true_iff. split; apply N.leb_le; nlia.
  - apply andb_true_iff. split; apply N.leb_le; nlia.
  - nlia.
  - nlia.
  - replace (55296 + n / 1024 mod 1024 - 55296)%N with (n / 1024 mod 1024)%N by nlia.
    replace (56320 + n mod 1024 - 56320)%N with (n mod 1024)%N by nlia.
    rewrite lor_shiftl_low by nlia.
    change (2 ^ 10)%N with 1024%N. subst n. nlia.
Qed.

(** ** The JSON text: strings *)

Lemma scanstring_quote s : scanstring (QUOTE :: s) = Some ([], s).
Proof. reflexivity. Qed.

Lemma scanstring_plain c s :
  c <> QUOTE -> c <> BACKSLASH -> (32 <= c)%N ->
  scanstring (c :: s) = cons_char c (scanstring s).
Proof.
  intros Hq Hb Hc. cbn [scanstring].
  rewrite (proj2 (N.eqb_neq _ _) Hq), (proj2 (N.eqb_neq _ _) Hb).
  now rewrite (proj2 (N.ltb_ge _ _) Hc).
Qed.

Lemma scanstring_simple esc c s :
  (esc =? 117)%N = false -> unescape esc = Some c ->
  scanstring (BACKSLASH :: esc :: s) = cons_char c (scanstring s).
Proof. intros Hu He. cbn [scanstring]. cbn. now rewrite Hu, He. Qed.

Lemma scanstring_u h1 h2 h3 h4 uni s3 :
  decode_uXXXX h1 h2 h3 h4 = Some uni ->
  is_high_surrogate uni && low_escape_follows s3 = false ->
  scanstring (BACKSLASH :: 117%N :: h1 :: h2 :: h3 :: h4 :: s3)
  = cons_char uni (scanstring s3).
Proof.
  intros Hd Hl. cbn [scanstring]. cbn [N.eqb QUOTE BACKSLASH Pos.eqb].
  rewrite Hd.
  destruct s3 as [|b [|u s4]]; try reflexivity.
  unfold low_escape_follows in Hl.
  destruct (is_high_surrogate uni); [|reflexivity].
  cbn [andb] in *.
  destruct ((b =? BACKSLASH)%N && (u =? 117)%N); [|reflexivity].
  cbn [andb] in Hl.
  destruct s4 as [|g1 [|g2 [|g3 [|g4 s5]]]]; try discriminate.
  destruct (decode_uXXXX g1 g2 g3 g4); [|discriminate].
  now rewrite Hl.
Qed.

Lemma scanstring_pair h1 h2 h3 h4 g1 g2 g3 g4 uni uni2 s5 :
  decode_uXXXX h1 h2 h3 h4 = Some uni ->
  decode_uXXXX g1 g2 g3 g4 = Some uni2 ->
  is_high_surrogate uni = true ->
  is_low_surrogate uni2 = true ->
  scanstring (BACKSLASH :: 117%N :: h1 :: h2 :: h3 :: h4
              :: BACKSLASH :: 117%N :: g1 :: g2 :: g3 :: g4 :: s5)
  = cons_char (join_surrogates uni uni2) (scanstring s5).
Proof.
  intros Hd Hd2 Hh Hl. cbn [scanstring]. cbn [N.eqb QUOTE BACKSLASH Pos.eqb].
  now rewrite Hd, Hh, Hd2, Hl.
Qed.

(** The four ways the encoder writes a character. *)
Lemma escape_char_cases c :
  (escape_char c = [c]
   /\ c <> QUOTE /\ c <> BACKSLASH /\ (32 <= c)%N /\ (c <= 126)%N)
  \/ (exists e, escape_char c = [BACKSLASH; e]
                /\ (e =? 117)%N = false /\ unescape e = Some c)
  \/ (escape_char c = u_escape c /\ (c < 65536)%N
      /\ ((c < 32)%N \/ (126 < c)%N))
  \/ (escape_char c = u_escape (high_of c) ++ u_escape (low_of c)
      /\ (65536 <= c)%N).
Proof.
  unfold escape_char, high_of, low_of, QUOTE, BACKSLASH.
  repeat (ntest; cbn [andb negb]; try subst c);
    try (left; repeat split; (reflexivity || assumption || lia));
    try (right; left; eexists; repeat split; reflexivity);
    try (right; right; left; repeat split; (reflexivity || lia));
    try (right; right; right; split; (reflexivity || lia)).
Qed.

Lemma high_of_high c : is_high_surrogate (high_of c) = true.
Proof.
  unfold high_of, is_high_surrogate.
  rewrite shiftr_10, land_1023, lor_high by nlia.
  apply andb_true_iff. split; apply N.leb_le; nlia.
Qed.

Lemma high_not_low u : is_high_surrogate u = true -> is_low_surrogate u = false.
Proof.
  unfold is_high_surrogate, is_low_surrogate.
  rewrite andb_true_iff, !N.leb_le. intros [_ H].
  apply andb_false_iff. left. apply N.leb_gt. lia.
Qed.

Lemma high_of_below c : (high_of c < 65536)%N.
Proof.
  unfold high_of. rewrite shiftr_10, land_1023, lor_high by nlia. nlia.
Qed.

(** After a character of the string, the text the encoder writes never goes
    on with an escape the decoder would pair, unless the next character is a
    low surrogate. *)
Lemma low_escape_follows_encoded s rest :
  head_low s = false ->
  low_escape_follows (flat_map escape_char s ++ QUOTE :: rest) = false.
Proof.
  destruct s as [|c s]; intros Hl.
  - simpl. now destruct rest.
  - cbn [flat_map]. rewrite <- app_assoc.
    set (T := flat_map escape_char s ++ QUOTE :: rest).
    assert (HT : exists t T', T = t :: T').
    { subst T. destruct (flat_map escape_char s); simpl; eauto. }
    destruct HT as (t & T' & ->).
    destruct (escape_char_cases c)
      as [(-> & Hq & Hb & _)|[(e & -> & He & _)|[(-> & Hc & _)|(-> & Hc)]]].
    + simpl. now rewrite (proj2 (N.eqb_neq _ _) Hb).
    + simpl. now rewrite He.
    + destruct (decode_u_escape Hc) as (h1 & h2 & h3 & h4 & -> & Hd).
      simpl. now rewrite Hd.
    + destruct (decode_u_escape (high_of_below c))
        as (h1 & h2 & h3 & h4 & -> & Hd).
      simpl. rewrite Hd. apply high_not_low, high_of_high.
Qed.

Lemma json_str_cons c s :
  json_str (c :: s) = true ->
  (c < 1114112)%N
  /\ is_high_surrogate c && head_low s = false
  /\ json_str s = true.
Proof.
  cbn [json_str]. rewrite !andb_true_iff, negb_true_iff, N.ltb_lt. tauto.
Qed.

(** The decoder reads back the string the encoder writes, and stops after the
    closing quote. *)
Lemma scanstring_encoded s rest :
  json_str s = true ->
  scanstring (flat_map escape_char s ++ QUOTE :: rest) = Some (s, rest).
Proof.
  induction s as [|c s IH]; intros Hs.
  - reflexivity.
  - apply json_str_cons in Hs as (Hc & Hpair & Hs).
    cbn [flat_map]. rewrite <- app_assoc.
    destruct (escape_char_cases c)
      as [(-> & Hq & Hb & Hlo & _)|[(e & -> & He & Hun)|[(-> & Hc' & _)|(-> & Hc')]]].
    + cbn [app]. rewrite scanstring_plain, IH by assumption. reflexivity.
    + cbn [app]. rewrite (@scanstring_simple e c _ He Hun), IH by assumption.
      reflexivity.
    + destruct (decode_u_escape Hc') as (h1 & h2 & h3 & h4 & -> & Hd).
      cbn [app]. rewrite (@scanstring_u h1 h2 h3 h4 c _ Hd).
      * now rewrite IH.
      * destruct (is_high_surrogate c); [|reflexivity].
        cbn [andb] in *. now apply low_escape_follows_encoded.
    + destruct (@join_surrogates_split c (conj Hc' Hc))
        as (Hh & Hl & Hb1 & Hb2 & Hj).
      fold (high_of c) in Hh, Hb1, Hj. fold (low_of c) in Hl, Hb2, Hj.
      destruct (decode_u_escape Hb1) as (h1 & h2 & h3 & h4 & -> & Hd).
      destruct (decode_u_escape Hb2) as (g1 & g2 & g3 & g4 & -> & Hd2).
      cbn [app]. rewrite (@scanstring_pair h1 h2 h3 h4 g1 g2 g3 g4 _ _ _ Hd Hd2 Hh Hl).
      now rewrite IH, Hj.
Qed.

(** ** The JSON text: lists and dictionaries *)

Lemma skip_ws_spaces n t :
  skip_ws (concat (repeat (py "  ") n) ++ t) = skip_ws t.
Proof. induction n as [|n IH]; [reflexivity | exact IH]. Qed.

Lemma skip_ws_indent n t : skip_ws (newline_indent n ++ t) = skip_ws t.
Proof.
  unfold newline_indent. rewrite <- app_assoc. cbn [app skip_ws].
  change (is_ws LF) with true. cbn iota. apply skip_ws_spaces.
Qed.

Lemma encode_basestring_ascii_app s t :
  encode_basestring_ascii s ++ t = QUOTE :: flat_map escape_char s ++ QUOTE :: t.
Proof.
  unfold encode_basestring_ascii. cbn [app]. now rewrite <- app_assoc.
Qed.

Lemma items_text_cons w lst level :
  lst <> [] ->
  items_text (w :: lst) level
  = encode_basestring_ascii w ++ 44%N :: newline_indent level
    ++ items_text lst level.
Proof.
  destruct lst as [|w' lst]; [congruence|]. intros _.
  unfold items_text. cbn [map join]. now rewrite <- app_assoc.
Qed.

Lemma items_text_head lst level t :
  lst <> [] -> exists t', items_text lst level ++ t = QUOTE :: t'.
Proof.
  destruct lst as [|w [|w' lst]]; [congruence| |]; intros _.
  - unfold items_text. cbn [map join].
    rewrite encode_basestring_ascii_app. eauto.
  - rewrite items_text_cons by discriminate.
    rewrite <- app_assoc, encode_basestring_ascii_app. eauto.
Qed.

Lemma array_items_encoded lst :
  lst <> [] -> forallb json_str lst = true ->
  forall fuel level m rest,
    length (items_text lst level ++ newline_indent m ++ 93%N :: rest) <= fuel ->
    array_items fuel (items_text lst level ++ newline_indent m ++ 93%N :: rest)
    = Some (lst, rest).
Proof.
  induction lst as [|w lst IH]; [congruence|].
  intros _ Hs fuel level m rest Hfuel.
  cbn [forallb] in Hs. apply andb_true_iff in Hs as [Hw Hs].
  destruct lst as [|w' lst].
  - unfold items_text in *. cbn [map join] in *.
    rewrite encode_basestring_ascii_app in *.
    destruct fuel as [|fuel]; [cbn [length] in Hfuel; lia|].
    cbn [array_items]. change (QUOTE =? QUOTE)%N with true. cbn iota.
    rewrite scanstring_encoded by exact Hw.
    rewrite skip_ws_indent. reflexivity.
  - rewrite items_text_cons in * by discriminate.
    rewrite <- app_assoc in *. rewrite encode_basestring_ascii_app in *.
    destruct fuel as [|fuel]; [cbn [length] in Hfuel; lia|].
    cbn [array_items]. change (QUOTE =? QUOTE)%N with true. cbn iota.
    rewrite scanstring_encoded by exact Hw.
    cbn [app skip_ws is_ws N.eqb Pos.eqb orb].
    rewrite <- app_assoc, skip_ws_indent.
    destruct (@items_text_head (w' :: lst) level
                (newline_indent m ++ 93%N :: rest)) as [t' Ht];
      [discriminate|].
    assert (Hskip : skip_ws (items_text (w' :: lst) level
                             ++ newline_indent m ++ 93%N :: rest)
                    = items_text (w' :: lst) level
                      ++ newline_indent m ++ 93%N :: rest).
    { rewrite Ht. reflexivity. }
    rewrite Hskip, IH; [reflexivity | discriminate | exact Hs |].
    cbn [app length] in Hfuel. rewrite !length_app in Hfuel.
    cbn [length] in Hfuel. rewrite !length_app in Hfuel.
    rewrite !length_app. lia.
Qed.

Lemma iterencode_list_open lst level :
  exists t, iterencode_list lst level = 91%N :: t
            /\ (lst = [] -> t = [93%N])
            /\ (lst <> [] ->
                t = newline_indent (S level) ++ items_text lst (S level)
                    ++ newline_indent level ++ [93%N]).
Proof.
  destruct lst as [|w lst]; eexists; (split; [reflexivity|]);
    split; intros H; (reflexivity || congruence).
Qed.

(** [JSONArray] reads back the list the encoder writes after the bracket. *)
Lemma JSONArray_encoded lst level rest fuel t :
  forallb json_str lst = true ->
  iterencode_list lst level = 91%N :: t ->
  length (t ++ rest) <= fuel ->
  JSONArray fuel (t ++ rest) = Some (lst, rest).
Proof.
  intros Hs Ht Hfuel.
  destruct (iterencode_list_open lst level) as (t' & E & Hnil & Hcons).
  rewrite E in Ht. injection Ht as <-.
  destruct lst as [|w lst].
  - rewrite Hnil by reflexivity. reflexivity.
  - rewrite Hcons in * by discriminate. clear Hnil Hcons E.
    unfold JSONArray. rewrite <- !app_assoc, skip_ws_indent. cbn [app].
    destruct (@items_text_head (w :: lst) (S level)
                (newline_indent level ++ 93%N :: rest)) as [t'' Ht''];
      [discriminate|].
    pose proof (@array_items_encoded (w :: lst)) as Hitems.
    specialize (Hitems ltac:(discriminate) Hs fuel (S level) level rest).
    rewrite Ht'' in *. cbn [skip_ws is_ws QUOTE N.eqb Pos.eqb orb].
    apply Hitems.
    rewrite <- !app_assoc in Hfuel. cbn [app] in Hfuel.
    rewrite length_app in Hfuel. rewrite Ht'' in Hfuel. lia.
Qed.

Lemma pairs_text_cons item dct level :
  dct <> [] ->
  pairs_text (item :: dct) level
  = pair_text level item ++ 44%N :: newline_indent level
    ++ pairs_text dct level.
Proof.
  destruct dct as [|item' dct]; [congruence|]. intros _.
  unfold pairs_text. cbn [map join]. now rewrite <- app_assoc.
Qed.

Lemma pair_text_head item level t :
  exists t', pair_text level item ++ t = QUOTE :: t'.
Proof.
  unfold pair_text. rewrite <- app_assoc, encode_basestring_ascii_app. eauto.
Qed.

Lemma pairs_text_head dct level t :
  dct <> [] -> exists t', pairs_text dct level ++ t = QUOTE :: t'.
Proof.
  destruct dct as [|item [|item' dct]]; [congruence| |]; intros _.
  - unfold pairs_text. cbn [map join]. apply pair_text_head.
  - rewrite pairs_text_cons by discriminate.
    rewrite <- app_assoc. apply pair_text_head.
Qed.

(** One item: the key, the colon and the list. *)
Lemma pair_scanned k lst level rest fuel :
  json_str k = true -> forallb json_str lst = true ->
  length (pair_text level (k, lst) ++ rest) <= S fuel ->
  exists s1 s4,
    pair_text level (k, lst) ++ rest = QUOTE :: s1
    /\ scanstring s1 = Some (k, 58%N :: 32%N :: 91%N :: s4)
    /\ JSONArray fuel s4 = Some (lst, rest).
Proof.
  intros Hk Hs Hfuel. unfold pair_text in *. cbn [fst snd] in *.
  destruct (iterencode_list_open lst level) as (t & E & _).
  rewrite E in *. rewrite <- !app_assoc in *.
  rewrite encode_basestring_ascii_app in *. cbn [app] in *.
  do 2 eexists. split; [reflexivity|]. split.
  - apply scanstring_encoded, Hk.
  - eapply JSONArray_encoded; [exact Hs | exact E |].
    cbn [length] in Hfuel. rewrite length_app in Hfuel.
    change (py ": ") with [58%N; 32%N] in Hfuel.
    cbn [app length] in Hfuel. lia.
Qed.

Lemma object_pairs_encoded dct :
  dct <> [] -> strs_ok dct = true ->
  forall fuel level m rest,
    length (pairs_text dct level ++ newline_indent m ++ 125%N :: rest) <= fuel ->
    object_pairs fuel (pairs_text dct level ++ newline_indent m ++ 125%N :: rest)
    = Some (dct, rest).
Proof.
  induction dct as [|[k lst] dct IH]; [congruence|].
  intros _ Hs fuel level m rest Hfuel.
  unfold strs_ok in Hs. cbn [forallb fst snd] in Hs.
  apply andb_true_iff in Hs as [Hkl Hs].
  apply andb_true_iff in Hkl as [Hk Hl].
  destruct fuel as [|fuel].
  { destruct (@pairs_text_head ((k, lst) :: dct) level
                (newline_indent m ++ 125%N :: rest)) as [t' Ht'];
      [discriminate|].
    rewrite Ht' in Hfuel. cbn [length] in Hfuel. lia. }
  destruct dct as [|item' dct].
  - unfold pairs_text in *. cbn [map join] in *.
    destruct (@pair_scanned k lst level (newline_indent m ++ 125%N :: rest) fuel
                Hk Hl Hfuel) as (s1 & s4 & -> & Hscan & Harr).
    cbn [object_pairs]. change (QUOTE =? QUOTE)%N with true. cbn iota.
    rewrite Hscan. cbn [skip_ws is_ws N.eqb Pos.eqb orb].
    rewrite Harr, skip_ws_indent. reflexivity.
  - rewrite pairs_text_cons in * by discriminate.
    rewrite <- app_assoc in *. cbn [app] in Hfuel |- *.
    destruct (@pair_scanned k lst level
                (44%N :: (newline_indent level ++ pairs_text (item' :: dct) level)
                         ++ newline_indent m ++ 125%N :: rest) fuel
                Hk Hl Hfuel) as (s1 & s4 & E & Hscan & Harr).
    rewrite E in *.
    cbn [object_pairs]. change (QUOTE =? QUOTE)%N with true. cbn iota.
    rewrite Hscan. cbn [skip_ws is_ws N.eqb Pos.eqb orb].
    rewrite Harr. cbn [skip_ws is_ws N.eqb Pos.eqb orb].
    rewrite <- app_assoc, skip_ws_indent.
    destruct (@pairs_text_head (item' :: dct) level
                (newline_indent m ++ 125%N :: rest)) as [t' Ht'];
      [discriminate|].
    assert (Hskip : skip_ws (pairs_text (item' :: dct) level
                             ++ newline_indent m ++ 125%N :: rest)
                    = pairs_text (item' :: dct) level
                      ++ newline_indent m ++ 125%N :: rest).
    { rewrite Ht'. reflexivity. }
    rewrite Hskip, IH; [reflexivity | discriminate | exact Hs |].
    rewrite <- E in Hfuel.
    rewrite !length_app in Hfuel. cbn [length] in Hfuel.
    rewrite !length_app in Hfuel. rewrite !length_app.
    assert (Hpos : 1 <= length (pair_text level (k, lst))).
    { destruct (@pair_text_head (k, lst) level []) as [t0 Ht0].
      rewrite app_nil_r in Ht0. rewrite Ht0. cbn [length]. lia. }
    lia.
Qed.

Lemma iterencode_dict_open item dct level :
  iterencode_dict (item :: dct) level
  = 123%N :: newline_indent (S level) ++ pairs_text (item :: dct) (S level)
    ++ newline_indent level ++ [125%N].
Proof. reflexivity. Qed.

Lemma json_loads_object t :
  json_loads (123%N :: t)
  = match JSONObject (S (length t)) t with
    | Some (obj, rest) =>
        match skip_ws rest with
        | [] => Some obj
        | _ :: _ => None
        end
    | None => None
    end.
Proof. reflexivity. Qed.

(** [JSONObject] reads back the items the encoder writes after the brace. *)
Lemma JSONObject_encoded dct n level m rest fuel :
  dct <> [] -> Dict.wf dct -> strs_ok dct = true ->
  length (pairs_text dct level ++ newline_indent m ++ 125%N :: rest) <= fuel ->
  JSONObject fuel (newline_indent n ++ pairs_text dct level
                   ++ newline_indent m ++ 125%N :: rest)
  = Some (dct, rest).
Proof.
  intros Hne Hwf Hs Hfuel. unfold JSONObject. rewrite skip_ws_indent.
  destruct (@pairs_text_head dct level (newline_indent m ++ 125%N :: rest) Hne)
    as [t' Ht'].
  pose proof (@object_pairs_encoded dct Hne Hs fuel level m rest Hfuel) as Hp.
  rewrite Ht' in *. cbn [skip_ws is_ws QUOTE N.eqb Pos.eqb orb].
  rewrite Hp. now rewrite Dict_of_pairs_wf.
Qed.

(** [json.loads] reads back the dictionary [json.dump] writes. *)
Lemma json_round_trip (obj : index) :
  Dict.wf obj -> strs_ok obj = true ->
  json_loads (json_dumps obj) = Some obj.
Proof.
  intros Hwf Hs. destruct obj as [|item obj]; [reflexivity|].
  unfold json_dumps. rewrite iterencode_dict_open, json_loads_object.
  rewrite (@JSONObject_encoded (item :: obj) 1 1 0 []); try assumption.
  - reflexivity.
  - discriminate.
  - rewrite !length_app. cbn [length]. lia.
Qed.

(** ** The strings of a loaded dataset *)

Lemma cons_char_Some c r content rest :
  cons_char c r = Some (content, rest) ->
  exists content', r = Some (content', rest) /\ content = c :: content'.
Proof.
  destruct r as [[content' rest']|]; simpl; [|discriminate].
  intros [= <- <-]. eauto.
Qed.

Lemma hex_value_bound c v : hex_value c = Some v -> (v < 16)%N.
Proof.
  unfold hex_value.
  repeat (ntest; cbn [andb]); intros [= <-]; lia.
Qed.

Lemma decode_uXXXX_bound h1 h2 h3 h4 uni :
  decode_uXXXX h1 h2 h3 h4 = Some uni -> (uni < 65536)%N.
Proof.
  unfold decode_uXXXX.
  destruct (hex_value h1) as [a|] eqn:E1; [|discriminate].
  destruct (hex_value h2) as [b|] eqn:E2; [|discriminate].
  destruct (hex_value h3) as [c|] eqn:E3; [|discriminate].
  destruct (hex_value h4) as [d|] eqn:E4; [|discriminate].
  apply hex_value_bound in E1, E2, E3, E4. intros [= <-]. lia.
Qed.

Lemma join_surrogates_bound u u2 :
  is_high_surrogate u = true -> is_low_surrogate u2 = true ->
  (65536 <= join_surrogates u u2 < 1114112)%N.
Proof.
  unfold is_high_surrogate, is_low_surrogate, join_surrogates.
  rewrite !andb_true_iff, !N.leb_le. intros [H1 H2] [H3 H4].
  rewrite lor_shiftl_low by (change (2 ^ 10)%N with 1024%N; lia).
  change (2 ^ 10)%N with 1024%N. lia.
Qed.

Lemma not_low_above c : (65536 <= c)%N -> is_low_surrogate c = false.
Proof.
  intros H. unfold is_low_surrogate. apply andb_false_iff. right.
  apply N.leb_gt. lia.
Qed.

Lemma unescape_plain esc c :
  unescape esc = Some c -> (c < 128)%N.
Proof.
  unfold unescape, QUOTE, BACKSLASH.
  repeat ntest; intros [= <-]; lia.
Qed.

Lemma below_not_surrogate c :
  (c < 55296)%N -> is_high_surrogate c = false /\ is_low_surrogate c = false.
Proof.
  intros H. unfold is_high_surrogate, is_low_surrogate.
  split; apply andb_false_iff; left; apply N.leb_gt; lia.
Qed.

Lemma is_scalar_spec c :
  is_scalar c = true ->
  (c < 1114112)%N /\ is_high_surrogate c = false /\ is_low_surrogate c = false.
Proof.
  unfold is_scalar. rewrite !andb_true_iff, !negb_true_iff, N.ltb_lt. tauto.
Qed.

Lemma skip_ws_scalar s :
  forallb is_scalar s = true -> forallb is_scalar (skip_ws s) = true.
Proof.
  induction s as [|c s IH]; [reflexivity|].
  intros H. cbn [skip_ws]. destruct (is_ws c); [|exact H].
  apply IH. cbn [forallb] in H. now apply andb_true_iff in H.
Qed.

Lemma json_str_intro c s :
  (c < 1114112)%N -> is_high_surrogate c && head_low s = false ->
  json_str s = true -> json_str (c :: s) = true.
Proof.
  intros Hc Hp Hs. cbn [json_str].
  now rewrite (proj2 (N.ltb_lt _ _) Hc), Hp, Hs.
Qed.

(** Splitting the hypothesis that a text is made of scalar values. *)
Ltac scalar_cons H :=
  let Hc := fresh "Hc" in
  cbn [forallb] in H; apply andb_true_iff in H as [Hc H].

(** After a [\uXXXX] escape that the decoder does not pair, the string goes
    on with what the decoder reads next. *)
Lemma scanned_after_escape uni content' s3 :
  (uni < 65536)%N ->
  is_high_surrogate uni && low_escape_follows s3 = false ->
  json_str content' = true ->
  (head_low content' = true -> low_escape_follows s3 = true) ->
  json_str (uni :: content') = true.
Proof.
  intros Hu Hp Hj Hh. apply json_str_intro; [lia | | exact Hj].
  destruct (is_high_surrogate uni); [|reflexivity].
  destruct (head_low content'); [|reflexivity].
  cbn [andb] in *. rewrite Hh in Hp by reflexivity. discriminate.
Qed.

(** On a text of scalar values the decoder returns a string of code points
    in which no high surrogate comes directly before a low one; a low
    surrogate at the head comes from an escape. *)
Lemma scanstring_sound n :
  forall s, length s <= n -> forallb is_scalar s = true ->
  forall content rest, scanstring s = Some (content, rest) ->
  json_str content = true
  /\ forallb is_scalar rest = true
  /\ (head_low content = true -> low_escape_follows s = true).
Proof.
  induction n as [|n IH]; intros s Hlen Hsc content rest Hscan.
  { destruct s; [discriminate | cbn in Hlen; lia]. }
  destruct s as [|c s1]; [discriminate|].
  scalar_cons Hsc. cbn [length] in Hlen. cbn [scanstring] in Hscan.
  destruct (N.eqb_spec c QUOTE) as [->|Hq].
  { injection Hscan as <- <-. repeat split; auto. discriminate. }
  destruct (N.eqb_spec c BACKSLASH) as [->|Hb].
  2:{ destruct (c <? 32)%N; [discriminate|].
      apply cons_char_Some in Hscan as (content' & Hscan & ->).
      destruct (IH s1 ltac:(lia) Hsc _ _ Hscan) as (Hj & Hr & Hh).
      apply is_scalar_spec in Hc as (Hc1 & Hc2 & Hc3).
      repeat split; auto.
      - apply json_str_intro; auto. now rewrite Hc2.
      - cbn [head_low]. rewrite Hc3. discriminate. }
  destruct s1 as [|esc s2]; [discriminate|].
  scalar_cons Hsc. cbn [length] in Hlen.
  destruct (N.eqb_spec esc 117) as [->|Hu].
  2:{ destruct (unescape esc) as [c'|] eqn:Hun; [|discriminate].
      apply cons_char_Some in Hscan as (content' & Hscan & ->).
      destruct (IH s2 ltac:(lia) Hsc _ _ Hscan) as (Hj & Hr & Hh).
      apply unescape_plain in Hun.
      destruct (@below_not_surrogate c' ltac:(lia)) as [Hc2 Hc3].
      repeat split; auto.
      - apply json_str_intro; auto; [lia | now rewrite Hc2].
      - cbn [head_low]. rewrite Hc3. discriminate. }
  destruct s2 as [|h1 [|h2 [|h3 [|h4 s3]]]]; try discriminate.
  do 4 scalar_cons Hsc. cbn [length] in Hlen.
  destruct (decode_uXXXX h1 h2 h3 h4) as [uni|] eqn:Hd; [|discriminate].
  pose proof (decode_uXXXX_bound _ _ _ _ Hd) as Hbound.
  assert (Hhead : head_low (uni :: nil) = true ->
                  low_escape_follows
                    (BACKSLASH :: 117%N :: h1 :: h2 :: h3 :: h4 :: s3) = true).
  { cbn [head_low low_escape_follows]. rewrite Hd. intros ->. reflexivity. }
  assert (Hcont : forall content',
             is_high_surrogate uni && low_escape_follows s3 = false ->
             scanstring s3 = Some (content', rest) ->
             json_str (uni :: content') = true
             /\ forallb is_scalar rest = true
             /\ (head_low (uni :: content') = true ->
                 low_escape_follows
                   (BACKSLASH :: 117%N :: h1 :: h2 :: h3 :: h4 :: s3) = true)).
  { intros content' Hp Hs3.
    destruct (IH s3 ltac:(lia) Hsc _ _ Hs3) as (Hj & Hr & Hh).
    repeat split; auto.
    eapply scanned_after_escape; eauto. }
  destruct s3 as [|b [|u s4]].
  - apply cons_char_Some in Hscan as (content' & Hscan & ->).
    apply Hcont; [now rewrite andb_false_r | exact Hscan].
  - apply cons_char_Some in Hscan as (content' & Hscan & ->).
    apply Hcont; [now rewrite andb_false_r | exact Hscan].
  - destruct (is_high_surrogate uni && (b =? BACKSLASH)%N && (u =? 117)%N)
      eqn:Hcond.
    + destruct s4 as [|g1 [|g2 [|g3 [|g4 s5]]]]; try discriminate.
      destruct (decode_uXXXX g1 g2 g3 g4) as [uni2|] eqn:Hd2; [|discriminate].
      destruct (is_low_surrogate uni2) eqn:Hlow.
      * apply cons_char_Some in Hscan as (content' & Hscan & ->).
        apply andb_true_iff in Hcond as [Hcond _].
        apply andb_true_iff in Hcond as [Hhigh _].
        destruct (join_surrogates_bound _ _ Hhigh Hlow) as [Hj1 Hj2].
        do 6 scalar_cons Hsc. cbn [length] in Hlen.
        destruct (IH s5 ltac:(lia) Hsc _ _ Hscan) as (Hj & Hr & Hh).
        repeat split; auto.
        -- apply json_str_intro; auto.
           unfold is_high_surrogate.
           replace (join_surrogates uni uni2 <=? 56319)%N with false
             by (symmetry; apply N.leb_gt; lia).
           now rewrite andb_false_r.
        -- cbn [head_low]. rewrite not_low_above by lia. discriminate.
      * apply cons_char_Some in Hscan as (content' & Hscan & ->).
        apply Hcont; [|exact Hscan].
        cbn [low_escape_follows]. rewrite Hd2, Hlow.
        now rewrite !andb_false_r.
    + apply cons_char_Some in Hscan as (content' & Hscan & ->).
      apply Hcont; [|exact Hscan].
      cbn [low_escape_follows].
      rewrite !andb_assoc. rewrite Hcond. reflexivity.
Qed.

Lemma scanstring_strs s content rest :
  forallb is_scalar s = true -> scanstring s = Some (content, rest) ->
  json_str content = true /\ forallb is_scalar rest = true.
Proof.
  intros Hsc Hscan.
  destruct (@scanstring_sound (length s) s (le_n _) Hsc _ _ Hscan) as (H & H' & _).
  now split.
Qed.

Lemma array_items_sound fuel :
  forall s values rest,
    forallb is_scalar s = true ->
    array_items fuel s = Some (values, rest) ->
    forallb json_str values = true /\ forallb is_scalar rest = true.
Proof.
  induction fuel as [|fuel IH]; intros s values rest Hsc H; [discriminate|].
  cbn [array_items] in H.
  destruct s as [|c s1]; [discriminate|]. scalar_cons Hsc.
  destruct (c =? QUOTE)%N; [|discriminate].
  destruct (scanstring s1) as [[value s2]|] eqn:Hscan; [|discriminate].
  destruct (scanstring_strs _ Hsc Hscan) as [Hv Hs2].
  apply skip_ws_scalar in Hs2.
  destruct (skip_ws s2) as [|d s3]; [discriminate|]. scalar_cons Hs2.
  destruct (d =? 93)%N.
  - injection H as <- <-. cbn [forallb]. now rewrite Hv.
  - destruct (d =? 44)%N; [|discriminate].
    destruct (array_items fuel (skip_ws s3)) as [[values' rest']|] eqn:Hrec;
      [|discriminate].
    injection H as <- <-.
    destruct (IH _ _ _ (skip_ws_scalar _ Hs2) Hrec) as [Hvs Hr].
    cbn [forallb]. now rewrite Hv, Hvs.
Qed.

Lemma JSONArray_sound fuel s values rest :
  forallb is_scalar s = true ->
  JSONArray fuel s = Some (values, rest) ->
  forallb json_str values = true /\ forallb is_scalar rest = true.
Proof.
  intros Hsc H. unfold JSONArray in H.
  apply skip_ws_scalar in Hsc.
  destruct (skip_ws s) as [|c s1]; [discriminate|].
  destruct (c =? 93)%N.
  - injection H as <- <-. scalar_cons Hsc. now split.
  - eapply array_items_sound; eassumption.
Qed.

Lemma object_pairs_sound fuel :
  forall s pairs rest,
    forallb is_scalar s = true ->
    object_pairs fuel s = Some (pairs, rest) ->
    strs_ok pairs = true /\ forallb is_scalar rest = true.
Proof.
  induction fuel as [|fuel IH]; intros s pairs rest Hsc H; [discriminate|].
  cbn [object_pairs] in H.
  destruct s as [|c s1]; [discriminate|]. scalar_cons Hsc.
  destruct (c =? QUOTE)%N; [|discriminate].
  destruct (scanstring s1) as [[key s2]|] eqn:Hscan; [|discriminate].
  destruct (scanstring_strs _ Hsc Hscan) as [Hk Hs2].
  apply skip_ws_scalar in Hs2.
  destruct (skip_ws s2) as [|colon s3]; [discriminate|]. scalar_cons Hs2.
  destruct (colon =? 58)%N; [|discriminate].
  apply skip_ws_scalar in Hs2.
  destruct (skip_ws s3) as [|br s4]; [discriminate|]. scalar_cons Hs2.
  destruct (br =? 91)%N; [|discriminate].
  destruct (JSONArray fuel s4) as [[value s5]|] eqn:Harr; [|discriminate].
  destruct (JSONArray_sound _ _ Hs2 Harr) as [Hv Hs5].
  apply skip_ws_scalar in Hs5.
  destruct (skip_ws s5) as [|d s6]; [discriminate|]. scalar_cons Hs5.
  destruct (d =? 125)%N.
  - injection H as <- <-. unfold strs_ok. cbn [forallb fst snd].
    now rewrite Hk, Hv.
  - destruct (d =? 44)%N; [|discriminate].
    destruct (object_pairs fuel (skip_ws s6)) as [[pairs' rest']|] eqn:Hrec;
      [|discriminate].
    injection H as <- <-.
    destruct (IH _ _ _ (skip_ws_scalar _ Hs5) Hrec) as [Hps Hr].
    unfold strs_ok in *. cbn [forallb fst snd]. now rewrite Hk, Hv, Hps.
Qed.

Lemma strs_ok_spec (d : Dict.t (list str)) :
  strs_ok d = true
  <-> forall k v, In (k, v) d ->
        json_str k = true /\ forall w, In w v -> json_str w = true.
Proof.
  unfold strs_ok. rewrite forallb_forall. split.
  - intros H k v Hin. specialize (H _ Hin). cbn [fst snd] in H.
    apply andb_true_iff in H as [Hk Hv]. split; [exact Hk|].
    now rewrite forallb_forall in Hv.
  - intros H [k v] Hin. destruct (H _ _ Hin) as [Hk Hv].
    cbn [fst snd]. rewrite Hk. now apply forallb_forall.
Qed.

Lemma Dict_of_pairs_In (V : Type) (l : list (str * V)) k v :
  In (k, v) (Dict.of_pairs l) -> In (k, v) l.
Proof.
  unfold Dict.of_pairs.
  assert (H : forall acc,
             In (k, v) (fold_left (fun d kv => Dict.set d (fst kv) (snd kv)) l acc)
             -> In (k, v) acc \/ In (k, v) l).
  { induction l as [|[k0 v0] l IH]; intros acc; simpl; [tauto|].
    intros Hin. apply IH in Hin as [Hin|Hin]; [|tauto].
    apply Dict_In_set in Hin as [[-> ->]|Hin]; tauto. }
  intros Hin. apply H in Hin as [[]|Hin]. exact Hin.
Qed.

Lemma Dict_of_pairs_is_wf (V : Type) (l : list (str * V)) :
  Dict.wf (Dict.of_pairs l).
Proof.
  unfold Dict.of_pairs.
  assert (H : forall acc : Dict.t V,
             Dict.wf acc ->
             Dict.wf (fold_left (fun d kv => Dict.set d (fst kv) (snd kv)) l acc)).
  { induction l as [|[k v] l IH]; intros acc Hacc; simpl; [exact Hacc|].
    apply IH. now apply Dict_wf_set. }
  apply H. constructor.
Qed.

(** The words and the categories of a dataset loaded from a text file. *)
Lemma json_loads_sound text (words_data : dataset) :
  forallb is_scalar text = true ->
  json_loads text = Some words_data ->
  Dict.wf words_data /\ strs_ok words_data = true.
Proof.
  intros Hsc H. unfold json_loads in H.
  apply skip_ws_scalar in Hsc.
  destruct (skip_ws text) as [|c s1]; [discriminate|]. scalar_cons Hsc.
  destruct (c =? 123)%N; [|discriminate].
  destruct (JSONObject (length text) s1) as [[obj rest]|] eqn:Hobj;
    [|discriminate].
  destruct (skip_ws rest); [|discriminate]. injection H as <-.
  unfold JSONObject in Hobj. apply skip_ws_scalar in Hsc.
  destruct (skip_ws s1) as [|c1 s2] eqn:Hskip; [discriminate|].
  destruct (c1 =? 125)%N.
  - injection Hobj as <- <-. split; [constructor | reflexivity].
  - destruct (object_pairs (length text) (c1 :: s2)) as [[pairs rest']|] eqn:Hp;
      [|discriminate].
    injection Hobj as <- <-.
    destruct (object_pairs_sound _ _ Hsc Hp) as [Hok _]. split.
    + apply Dict_of_pairs_is_wf.
    + apply strs_ok_spec. intros k v Hin.
      apply Dict_of_pairs_In in Hin. revert k v Hin. now apply strs_ok_spec.
Qed.

(** ** The round trip of the output file *)

Lemma In_listings w c (words_data : dataset) :
  In w (listings c words_data) -> exists cs, In (w, cs) words_data /\ In c cs.
Proof.
  unfold listings. rewrite in_flat_map. intros ([w' cs] & Hin & Hrep).
  cbn [fst snd] in Hrep.
  pose proof (repeat_spec _ _ _ Hrep) as ->.
  exists cs. split; [exact Hin|].
  destruct (mem c cs) eqn:E; [now apply mem_In|].
  rewrite count_notin in Hrep; [destruct Hrep|].
  intros H. apply mem_In in H. congruence.
Qed.

(** The strings of the index, hence of the thin categories, are strings of
    the dataset. *)
Lemma categories_strs_ok (words_data : dataset) :
  strs_ok words_data = true -> strs_ok (categories words_data) = true.
Proof.
  rewrite !strs_ok_spec. intros Hd c words Hin. split.
  - assert (Hk : In c (Dict.keys (categories words_data))).
    { change c with (fst (c, words)). now apply in_map. }
    apply categories_keys in Hk as (w & cs & Hw & Hc).
    now apply (Hd _ _ Hw).
  - intros w Hw.
    apply Dict_In_get in Hin; [|apply categories_wf].
    pose proof (categories_lookup words_data c) as L.
    unfold lookup in L. rewrite Hin in L. subst words.
    apply In_listings in Hw as (cs & Hw & _).
    exact (proj1 (Hd _ _ Hw)).
Qed.

Lemma thin_strs_ok (words_data : dataset) :
  strs_ok words_data = true -> strs_ok (thin_categories words_data) = true.
Proof.
  intros H. apply categories_strs_ok in H.
  rewrite strs_ok_spec in *. intros c words Hin.
  apply thin_categories_In in Hin as [Hin _]. now apply H.
Qed.

(** Why the strings must come from the decoder: a high surrogate directly
    before a low one is written as two escapes, which the decoder joins.  No
    text file loads to such a string ([json_loads_sound]). *)
Example adjacent_surrogates_join :
  json_str [55357; 56832]%N = false
  /\ json_loads (json_dumps [([55357; 56832]%N, [])]) = Some [([128512]%N, [])].
Proof. split; vm_compute; reflexivity. Qed.

(** C5 (round trip).  For a dataset loaded from a text file (a text of
    Unicode scalar values), parsing the JSON text of the thin categories gives
    the thin categories back: the same keys in the same order, each with the
    same list of words.  That text is the content the run leaves in
    data/thin_categories.json whenever it writes the file, which it does
    unless [print] raised before; then the file is as it was. *)
Theorem thin_json_round_trip (text : str) (words_data : dataset) (w : world) :
  forallb is_scalar text = true ->
  json_loads text = Some words_data ->
  json_loads (json_dumps (thin_categories words_data))
  = Some (thin_categories words_data)
  /\ (fst (analyze_categories words_data w) <> Raised UnicodeEncodeError ->
      Dict.get (files (snd (analyze_categories words_data w))) thin_path
      = Some (json_dumps (thin_categories words_data)))
  /\ (fst (analyze_categories words_data w) = Raised UnicodeEncodeError ->
      Dict.get (files (snd (analyze_categories words_data w))) thin_path
      = Dict.get (files w) thin_path).
Proof.
  intros Hsc Hload.
  destruct (json_loads_sound _ Hsc Hload) as [_ Hok]. split.
  - apply json_round_trip; [apply thin_categories_wf | now apply thin_strs_ok].
  - rewrite analyze_categories_result, analyze_categories_file.
    unfold outcome.
    destruct (lines_encodable words_data); split; try reflexivity.
    + destruct (total_categories words_data =? 0); discriminate.
    + congruence.
Qed.

Lemma thin_json_round_trip_witness :
  forallb is_scalar (json_dumps scenario) = true
  /\ json_loads (json_dumps scenario) = Some scenario
  /\ json_loads (json_dumps (thin_categories scenario))
     = Some (thin_categories scenario)
  /\ (fst (analyze_categories scenario used_world) <> Raised UnicodeEncodeError ->
      Dict.get (files (snd (analyze_categories scenario used_world))) thin_path
      = Some (json_dumps (thin_categories scenario)))
  /\ (fst (analyze_categories scenario used_world) = Raised UnicodeEncodeError ->
      Dict.get (files (snd (analyze_categories scenario used_world))) thin_path
      = Dict.get (files used_world) thin_path).
Proof.
  assert (Hsc : forallb is_scalar (json_dumps scenario) = true)
    by (vm_compute; reflexivity).
  assert (Hload : json_loads (json_dumps scenario) = Some scenario)
    by (vm_compute; reflexivity).
  split; [exact Hsc|]. split; [exact Hload|].
  exact (@thin_json_round_trip (json_dumps scenario) scenario used_world
           Hsc Hload).
Defined.


(** * Further properties of the script *)

(** ** The index: order of the keys, duplicates, conservation *)

Lemma filter_filter (A : Type) (f g : A -> bool) (l : list A) :
  filter f (filter g l) = filter (fun x => f x && g x) l.
Proof.
  induction l as [|x l IH]; [reflexivity|].
  simpl. destruct (g x); simpl; rewrite ?andb_false_r, ?andb_true_r.
  - destruct (f x); now rewrite IH.
  - exact IH.
Qed.

Lemma mem_app x K c :
  mem x (K ++ [c]) = mem x K || str_eqb x c.
Proof. unfold mem. rewrite existsb_app. simpl. now rewrite orb_false_r. Qed.

Lemma keys_append_word_order cats c w :
  Dict.keys (append_word cats c w)
  = Dict.keys cats ++ (if mem c (Dict.keys cats) then [] else [c]).
Proof.
  rewrite append_word_set.
  destruct (mem c (Dict.keys cats)) eqn:E.
  - rewrite app_nil_r. apply Dict_keys_set_present. now apply mem_In.
  - rewrite Dict_set_fresh.
    + unfold Dict.keys. now rewrite map_app.
    + intros H. apply mem_In in H. congruence.
Qed.

Lemma absorb_step K c l :
  absorb (K ++ (if mem c K then [] else [c])) l = absorb K (c :: l).
Proof.
  unfold absorb. cbn [first_seen filter].
  destruct (mem c K) eqn:E; cbn [negb].
  - rewrite app_nil_r. f_equal. rewrite filter_filter.
    apply filter_ext_in. intros x _.
    destruct (mem x K) eqn:Ex; [reflexivity|]. cbn [negb andb].
    eq_case x c; [congruence | reflexivity].
  - rewrite <- app_assoc. cbn [app]. do 2 f_equal.
    rewrite filter_filter. apply filter_ext. intros x.
    now rewrite mem_app, negb_orb.
Qed.

Lemma absorb_app K l1 l2 : absorb (absorb K l1) l2 = absorb K (l1 ++ l2).
Proof.
  revert K; induction l1 as [|c l1 IH]; intros K.
  - unfold absorb at 2. cbn [first_seen filter app]. now rewrite app_nil_r.
  - cbn [app]. rewrite <- !absorb_step. apply IH.
Qed.

Lemma keys_add_word_order cats item :
  Dict.keys (add_word cats item) = absorb (Dict.keys cats) (snd item).
Proof.
  destruct item as [w cs]. cbn [add_word snd].
  revert cats; induction cs as [|c cs IH]; intros cats.
  - unfold absorb. simpl. now rewrite app_nil_r.
  - cbn [fold_left]. rewrite IH, keys_append_word_order. apply absorb_step.
Qed.

Lemma keys_fold_add_word (words_data : dataset) cats :
  Dict.keys (fold_left add_word words_data cats)
  = absorb (Dict.keys cats) (flat_map snd words_data).
Proof.
  revert cats; induction words_data as [|item d IH]; intros cats.
  - unfold absorb. simpl. now rewrite app_nil_r.
  - cbn [fold_left flat_map]. rewrite IH, keys_add_word_order.
    apply absorb_app.
Qed.

(** X1 (order of the keys).  The keys of the index are the categories listed
    in the dataset, each once, in the order in which the scan first meets
    them. *)
Theorem index_keys_first_seen (words_data : dataset) :
  Dict.keys (categories words_data) = first_seen (flat_map snd words_data).
Proof.
  rewrite categories_fold, keys_fold_add_word. unfold absorb.
  cbn [Dict.keys Dict.empty map app].
  transitivity (filter (fun _ : str => true)
                       (first_seen (flat_map snd words_data))).
  - apply filter_ext. reflexivity.
  - induction (first_seen (flat_map snd words_data)) as [|x l IH];
      [reflexivity | simpl; now rewrite IH].
Qed.

Lemma count_app w l1 l2 : count w (l1 ++ l2) = count w l1 + count w l2.
Proof. unfold count. now rewrite filter_app, length_app. Qed.

Lemma count_repeat w w' n :
  count w (repeat w' n) = if str_eqb w w' then n else 0.
Proof.
  induction n as [|n IH]; simpl repeat.
  - now destruct (str_eqb w w').
  - rewrite count_cons, IH. now destruct (str_eqb w w').
Qed.

Lemma count_listings (words_data : dataset) w cs c :
  Dict.wf words_data -> In (w, cs) words_data ->
  count w (listings c words_data) = count c cs.
Proof.
  unfold Dict.wf, listings.
  induction words_data as [|[w0 cs0] d IH]; [intros _ []|].
  cbn [flat_map fst snd Dict.keys map]. intros Hnd Hin.
  inversion Hnd as [|? ? Hw0 Hd]; subst.
  rewrite count_app, count_repeat.
  destruct Hin as [[= -> ->]|Hin].
  - rewrite str_eqb_refl.
    match goal with
    | |- _ + count w ?l = _ => rewrite (@count_notin w l); [lia|]
    end.
    intros H. apply In_listings in H as (cs' & H & _).
    apply Hw0. change w with (fst (w, cs')). now apply in_map.
  - rewrite (proj2 (str_eqb_neq w w0)).
    + now apply IH.
    + intros ->. apply Hw0. change w0 with (fst (w0, cs)). now apply in_map.
Qed.

(** X2 (repeated listings).  In the list the index holds for a category a
    word occurs as many times as its own list of categories names that
    category: a repetition in the dataset is a repetition in the index, and
    a word that does not list the category is not in its list. *)
Theorem index_counts_listings (words_data : dataset) (w : str) (cs : list str)
                              (c : str) :
  Dict.wf words_data -> In (w, cs) words_data ->
  count w (lookup (categories words_data) c) = count c cs.
Proof.
  intros Hwf Hin. rewrite categories_lookup. now apply count_listings.
Qed.

Lemma index_counts_listings_witness :
  Dict.wf repeated
  /\ In (py "cat", [py "Pet"; py "Pet"]) repeated
  /\ count (py "cat") (lookup (categories repeated) (py "Pet"))
     = count (py "Pet") [py "Pet"; py "Pet"].
Proof.
  assert (Hwf : Dict.wf repeated) by (apply nodupb_NoDup; reflexivity).
  assert (Hin : In (py "cat", [py "Pet"; py "Pet"]) repeated)
    by (left; reflexivity).
  repeat (split; [assumption|]).
  exact (@index_counts_listings repeated _ _ (py "Pet") Hwf Hin).
Defined.

Lemma words_append_word cats c w :
  length (concat (Dict.values (append_word cats c w)))
  = S (length (concat (Dict.values cats))).
Proof.
  rewrite append_word_set. unfold lookup.
  induction cats as [|[k v] cats IH]; [reflexivity|].
  cbn [Dict.get Dict.set]. eq_case k c.
  - cbn [Dict.values map snd concat]. rewrite !length_app. simpl. lia.
  - cbn [Dict.values map snd concat]. rewrite !length_app.
    unfold Dict.values in IH. rewrite IH. lia.
Qed.

Lemma words_add_word cats item :
  length (concat (Dict.values (add_word cats item)))
  = length (concat (Dict.values cats)) + length (snd item).
Proof.
  destruct item as [w cs]. cbn [add_word snd].
  revert cats; induction cs as [|c cs IH]; intros cats; simpl; [lia|].
  rewrite IH, words_append_word. lia.
Qed.

(** X3 (conservation).  The lists of the index hold together as many words
    as the dataset has listings of a category by a word: the inversion
    neither drops nor invents a listing. *)
Theorem index_conserves_listings (words_data : dataset) :
  length (concat (Dict.values (categories words_data)))
  = length (flat_map snd words_data).
Proof.
  rewrite categories_fold.
  assert (H : forall cats : index,
             length (concat (Dict.values (fold_left add_word words_data cats)))
             = length (concat (Dict.values cats))
               + length (flat_map snd words_data)).
  { induction words_data as [|item d IH]; intros cats; simpl; [lia|].
    rewrite IH, words_add_word, length_app. lia. }
  now rewrite H.
Qed.

(** X4 (no spurious word).  Every word in the list the index holds for a
    category is a word of the dataset that lists this category. *)
Theorem index_words_listed (words_data : dataset) :
  Forall (fun item : str * list str =>
            Forall (fun w => exists cs, In (w, cs) words_data
                                        /\ In (fst item) cs)
                   (snd item))
         (categories words_data).
Proof.
  rewrite Forall_forall. intros [c words] Hin. rewrite Forall_forall.
  intros w Hw. cbn [fst snd] in *.
  apply Dict_In_get in Hin; [|apply categories_wf].
  pose proof (categories_lookup words_data c) as L.
  unfold lookup in L. rewrite Hin in L. subst words.
  now apply In_listings.
Qed.

(** X5 (datasets one after the other).  The list the index of [d1 ++ d2]
    holds for a category is the list for [d1] followed by the list for
    [d2]. *)
Theorem index_of_app (d1 d2 : dataset) (c : str) :
  lookup (categories (d1 ++ d2)) c
  = lookup (categories d1) c ++ lookup (categories d2) c.
Proof.
  rewrite !categories_lookup. unfold listings. apply flat_map_app.
Qed.

(** ** The thin categories and the reserved families *)

(** X6 (thin items).  Every item of the thin-categories result is an item of
    the index with one, two or three words, and no category is a key of the
    result twice. *)
Theorem thin_items_bounds (words_data : dataset) :
  Forall (fun item : str * list str =>
            In item (categories words_data)
            /\ 1 <= length (snd item) <= 3)
         (thin_categories words_data)
  /\ NoDup (Dict.keys (thin_categories words_data)).
Proof.
  split; [|apply thin_categories_wf].
  rewrite Forall_forall. intros [c words] Hin.
  apply thin_categories_In in Hin as [Hin Hsmall].
  apply is_small_spec in Hsmall as (Hlen & _).
  destruct (categories_ok words_data) as [_ Hne].
  rewrite Forall_forall in Hne. specialize (Hne _ Hin).
  cbn [snd] in *. split; [exact Hin|].
  destruct words; [congruence | simpl in *; lia].
Qed.

Lemma startswith_prefix s p :
  startswith s p = true <-> exists t, s = p ++ t.
Proof.
  revert s; induction p as [|x p IH]; intros s.
  - split; [intros _; now exists s | intros _; now destruct s].
  - destruct s as [|c s]; simpl.
    + split; [discriminate | intros [t H]; discriminate].
    + rewrite andb_true_iff, N.eqb_eq, IH. split.
      * intros [-> [t ->]]. now exists t.
      * intros [t [= -> ->]]. eauto.
Qed.

(** X7 (reserved names).  The names the script sets apart are exactly the
    strings that begin with "Starts with" or with "Ends with", whatever
    follows; no such name is a key of the thin-categories result, for any
    dataset. *)
Theorem reserved_names_never_thin (words_data : dataset) (c : str) :
  (excluded c = true
   <-> exists t, c = Starts_with ++ t \/ c = Ends_with ++ t)
  /\ forall t,
       ~ In (Starts_with ++ t) (Dict.keys (thin_categories words_data))
       /\ ~ In (Ends_with ++ t) (Dict.keys (thin_categories words_data)).
Proof.
  assert (Hex : forall c, excluded c = true
                          <-> exists t, c = Starts_with ++ t \/ c = Ends_with ++ t).
  { intros c'. unfold excluded. rewrite orb_true_iff, !startswith_prefix.
    split.
    - intros [[t H]|[t H]]; exists t; auto.
    - intros [t [H|H]]; [left | right]; now exists t. }
  split; [apply Hex|].
  intros t. split.
  - apply excluded_not_counted. apply Hex. eauto.
  - apply excluded_not_counted. apply Hex. eauto.
Qed.

Lemma filter_nil_iff (A : Type) (f : A -> bool) (l : list A) :
  filter f l = [] <-> Forall (fun x => f x = false) l.
Proof.
  induction l as [|x l IH]; simpl.
  - split; [constructor | reflexivity].
  - destruct (f x) eqn:E; split.
    + discriminate.
    + intros H. inversion H; subst. congruence.
    + intros H. constructor; [exact E | now apply IH].
    + intros H. inversion H; subst. now apply IH.
Qed.

(** X8 (nothing to report).  The thin-categories result is empty exactly
    when every category of the index is of a reserved family or has four
    words or more. *)
Theorem thin_empty_iff (words_data : dataset) :
  thin_categories words_data = []
  <-> Forall (fun item : str * list str =>
                excluded (fst item) = true \/ 4 <= length (snd item))
             (categories words_data).
Proof.
  rewrite thin_categories_sorted. unfold sorted_small_categories.
  rewrite small_categories_filter.
  assert (Hs : forall l : list (str * list str),
             sorted by_size l = [] <-> l = []).
  { intros l. split; [|now intros ->].
    intros H. apply Permutation_nil. rewrite <- H.
    apply sorted_perm. }
  rewrite Hs, filter_nil_iff, !Forall_forall.
  assert (E : forall item : str * list str,
             small_item item = false
             <-> excluded (fst item) = true \/ 4 <= length (snd item)).
  { intros [c words]. unfold small_item, is_small, excluded. cbn [fst snd].
    rewrite <- andb_assoc, andb_false_iff, <- negb_orb, negb_false_iff.
    rewrite Nat.ltb_ge. tauto. }
  split; intros H x Hx; apply E, H, Hx.
Qed.

(** ** The counts of the summary *)

Lemma usable_of_no_reserved (cats : index) :
  existsb excluded (Dict.keys cats) = false ->
  usable_of cats = usable_intended cats.
Proof.
  intros H. rewrite usable_of_spec, H. unfold usable_intended, Dict.values.
  unfold Dict.keys in H. revert H.
  induction cats as [|[c ws] cats IH]; [reflexivity|].
  cbn [map existsb fst snd]. intros H.
  apply orb_false_iff in H as [Hc H].
  cbn [map filter fst snd]. rewrite Hc. cbn [negb]. rewrite andb_true_r.
  destruct (4 <=? length ws); cbn [length]; now rewrite IH.
Qed.

Lemma usable_le_intended (cats : index) : usable_of cats <= usable_intended cats.
Proof.
  destruct (existsb excluded (Dict.keys cats)) eqn:E.
  - rewrite usable_of_spec, E. lia.
  - now rewrite usable_of_no_reserved.
Qed.

(** X9 (the counts never exceed the total).  For every dataset the usable
    count and the thin count together are at most the total count, so the
    quotient of the last line is between 0 and 1. *)
Theorem summary_counts_bounded (words_data : dataset) :
  usable_categories words_data + length (sorted_small_categories words_data)
  <= total_categories words_data.
Proof.
  rewrite <- intended_summary_arithmetic. unfold usable_categories.
  pose proof (usable_le_intended (categories words_data)). lia.
Qed.

(** X10 (the counts add up without reserved categories).  When no category
    of the index is of a reserved family, the usable count is the number of
    categories of four words or more, and usable + thin = total. *)
Theorem summary_adds_up_without_reserved (words_data : dataset) :
  existsb excluded (Dict.keys (categories words_data)) = false ->
  usable_categories words_data = usable_intended (categories words_data)
  /\ usable_categories words_data
     + length (sorted_small_categories words_data)
     = total_categories words_data.
Proof.
  intros H. unfold usable_categories.
  rewrite usable_of_no_reserved by exact H.
  split; [reflexivity | apply intended_summary_arithmetic].
Qed.

Lemma summary_adds_up_without_reserved_witness :
  existsb excluded (Dict.keys (categories scenario)) = false
  /\ usable_categories scenario = usable_intended (categories scenario)
  /\ usable_categories scenario + length (sorted_small_categories scenario)
     = total_categories scenario.
Proof.
  assert (H : existsb excluded (Dict.keys (categories scenario)) = false)
    by reflexivity.
  split; [exact H|].
  exact (@summary_adds_up_without_reserved scenario H).
Defined.

(** X11 (one reserved category empties the usable count).  As soon as a
    category of the index is of a reserved family, the usable count of the
    summary is 0, whatever the sizes of the other categories. *)
Theorem usable_zero_with_reserved (words_data : dataset) (c : str) :
  In c (Dict.keys (categories words_data)) -> excluded c = true ->
  usable_categories words_data = 0.
Proof.
  intros Hin Hc. unfold usable_categories. rewrite usable_of_spec.
  replace (existsb excluded (Dict.keys (categories words_data))) with true;
    [reflexivity|].
  symmetry. apply existsb_exists. eauto.
Qed.

Lemma usable_zero_with_reserved_witness :
  In (py "Starts with A") (Dict.keys (categories four_and_reserved))
  /\ excluded (py "Starts with A") = true
  /\ usable_categories four_and_reserved = 0.
Proof.
  assert (Hin : In (py "Starts with A")
                   (Dict.keys (categories four_and_reserved)))
    by (right; left; reflexivity).
  assert (Hc : excluded (py "Starts with A") = true) by reflexivity.
  repeat (split; [assumption|]).
  exact (@usable_zero_with_reserved four_and_reserved _ Hin Hc).
Defined.

(** ** The run: the failing case and what is left alone *)

Lemma nothing_counted (words_data : dataset) :
  total_categories words_data = 0 ->
  sorted_small_categories words_data = []
  /\ usable_of (categories words_data) = 0.
Proof.
  intros Ht.
  pose proof (intended_summary_arithmetic words_data) as Hsum.
  pose proof (usable_le_intended (categories words_data)) as Hle.
  split; [apply length_zero_iff_nil|]; lia.
Qed.

(** X12 (the failing run).  When no category is outside the reserved
    families the run raises [ZeroDivisionError] only after it has written
    the empty object to the output file and printed the report up to the
    thin count; the text printed is the same for every such dataset, and the
    line of the percentage is not printed. *)
Theorem failing_run_report (words_data : dataset) :
  total_categories words_data = 0 ->
  thin_categories words_data = []
  /\ effect_of (analyze_categories words_data) (Raised ZeroDivisionError)
       (lines
          [ py "Found 0 categories with fewer than 4 items (excluding 'Starts with' and 'Ends with'):";
            py "================================================================================";
            py "";
            py "Saved 0 thin categories to data/thin_categories.json";
            py "";
            py "================================================================================";
            py "Summary (excluding 'Starts with' and 'Ends with'):";
            py "Total categories: 0";
            py "Categories with 4+ items (usable): 0";
            py "Categories with <4 items (need expansion): 0" ])
       [(thin_path, py "{}")].
Proof.
  intros Ht. destruct (nothing_counted _ Ht) as [Hnil Hu].
  split.
  - now rewrite thin_categories_sorted.
  - unfold analyze_categories. cbv zeta.
    change (sorted by_size (small_of (categories words_data)))
      with (sorted_small_categories words_data).
    change (total_of (categories words_data))
      with (total_categories words_data).
    rewrite Hnil, Ht, Hu.
    eapply effect_outs; [eapply effect_writes|].
    + do 2 step. eapply effect_bind; [apply effect_for_each; reflexivity|].
      repeat step. eapply effect_bind_raised. apply (effect_truediv 0 0).
    + reflexivity.
    + vm_compute. reflexivity.
Qed.

Lemma failing_run_report_witness :
  total_categories only_reserved = 0
  /\ thin_categories only_reserved = []
  /\ effect_of (analyze_categories only_reserved) (Raised ZeroDivisionError)
       (lines
          [ py "Found 0 categories with fewer than 4 items (excluding 'Starts with' and 'Ends with'):";
            py "================================================================================";
            py "";
            py "Saved 0 thin categories to data/thin_categories.json";
            py "";
            py "================================================================================";
            py "Summary (excluding 'Starts with' and 'Ends with'):";
            py "Total categories: 0";
            py "Categories with 4+ items (usable): 0";
            py "Categories with <4 items (need expansion): 0" ])
       [(thin_path, py "{}")].
Proof.
  assert (Ht : total_categories only_reserved = 0) by reflexivity.
  split; [exact Ht|].
  exact (@failing_run_report only_reserved Ht).
Defined.

(** X13 (what the run leaves alone).  Whether it returns or raises, the run
    changes no file other than data/thin_categories.json, the dataset file
    included, and it only adds to the text of standard output. *)
Theorem run_leaves_other_files (words_data : dataset) (w : world) (path : str) :
  path <> thin_path ->
  Dict.get (files (snd (analyze_categories words_data w))) path
  = Dict.get (files w) path
  /\ exists out,
       stdout (snd (analyze_categories words_data w)) = stdout w ++ out.
Proof.
  intros Hpath. destruct (analyze_categories_effect words_data) as [out H].
  rewrite (H w). unfold written.
  destruct (lines_encodable words_data);
    cbn [snd files stdout fold_left fst]; (split; [|now exists out]).
  - rewrite Dict_get_set.
    rewrite (proj2 (str_eqb_neq thin_path path)); [reflexivity | congruence].
  - reflexivity.
Qed.

Lemma run_leaves_other_files_witness :
  py "data/words.json" <> thin_path
  /\ Dict.get (files (snd (analyze_categories scenario used_world)))
              (py "data/words.json")
     = Dict.get (files used_world) (py "data/words.json")
  /\ exists out,
       stdout (snd (analyze_categories scenario used_world))
       = stdout used_world ++ out.
Proof.
  assert (Hpath : py "data/words.json" <> thin_path)
    by (intros H; vm_compute in H; discriminate).
  split; [exact Hpath|].
  exact (@run_leaves_other_files scenario used_world _ Hpath).
Defined.

(** ** The order of the words in the dataset *)

Lemma perm_filter_length (A : Type) (f : A -> bool) (l l' : list A) :
  Permutation l l' -> length (filter f l) = length (filter f l').
Proof.
  induction 1 as [|x l l' _ IH|x y l|l l' l'' _ IH1 _ IH2]; simpl.
  - reflexivity.
  - destruct (f x); simpl; now rewrite IH.
  - destruct (f x), (f y); reflexivity.
  - congruence.
Qed.

Lemma perm_existsb (A : Type) (f : A -> bool) (l l' : list A) :
  Permutation l l' -> existsb f l = existsb f l'.
Proof.
  induction 1 as [|x l l' _ IH|x y l|l l' l'' _ IH1 _ IH2]; simpl.
  - reflexivity.
  - now rewrite IH.
  - destruct (f x), (f y); reflexivity.
  - congruence.
Qed.

Lemma total_of_sizes (cats : index) :
  total_of cats
  = length (filter (fun p : str * nat => negb (excluded (fst p))) (sizes cats)).
Proof.
  rewrite total_of_excluded. unfold Dict.keys, sizes.
  induction cats as [|[c ws] cats IH]; [reflexivity|].
  simpl. destruct (excluded c); simpl; now rewrite IH.
Qed.

Lemma small_of_sizes (cats : index) :
  Dict.wf cats ->
  length (small_of cats)
  = length (filter (fun p : str * nat =>
                      (snd p <? 4) && negb (excluded (fst p)))
                   (sizes cats)).
Proof.
  intros Hwf. rewrite small_of_filter by exact Hwf. unfold sizes.
  induction cats as [|[c ws] cats IH]; [reflexivity|].
  cbn [filter map fst snd]. unfold small_item at 1, is_small. cbn [fst snd].
  rewrite <- andb_assoc, <- negb_orb. fold (excluded c).
  assert (Hcats : Dict.wf cats) by (now inversion Hwf).
  destruct ((length ws <? 4) && negb (excluded c)); cbn [length];
    now rewrite IH.
Qed.

Lemma usable_of_sizes (cats : index) :
  usable_of cats
  = if existsb (fun p : str * nat => excluded (fst p)) (sizes cats) then 0
    else length (filter (fun p : str * nat => 4 <=? snd p) (sizes cats)).
Proof.
  rewrite usable_of_spec. unfold Dict.keys, Dict.values, sizes.
  replace (existsb (fun p : str * nat => excluded (fst p))
                   (map (fun item : str * list str =>
                           (fst item, length (snd item))) cats))
    with (existsb excluded (map fst cats)).
  - destruct (existsb excluded (map fst cats)); [reflexivity|].
    induction cats as [|[c ws] cats IH]; [reflexivity|].
    cbn [map filter fst snd].
    destruct (4 <=? length ws); cbn [length]; now rewrite IH.
  - induction cats as [|[c ws] cats IH]; [reflexivity|].
    simpl. now rewrite IH.
Qed.

Lemma In_sizes_categories (words_data : dataset) c n :
  In (c, n) (sizes (categories words_data))
  <-> In c (Dict.keys (categories words_data))
      /\ n = length (listings c words_data).
Proof.
  unfold sizes. rewrite in_map_iff. split.
  - intros ([c' ws] & [= -> <-] & Hin). split.
    + change c with (fst (c, ws)). now apply in_map.
    + apply Dict_In_get in Hin; [|apply categories_wf].
      pose proof (categories_lookup words_data c) as L.
      unfold lookup in L. rewrite Hin in L. now subst ws.
  - intros [Hk ->].
    destruct (Dict.get (categories words_data) c) as [ws|] eqn:G.
    + exists (c, ws). split.
      * cbn [fst snd]. f_equal.
        pose proof (categories_lookup words_data c) as L.
        unfold lookup in L. rewrite G in L. now subst ws.
      * now apply Dict_get_In.
    + apply Dict_get_None in G. contradiction.
Qed.

Lemma sizes_NoDup (cats : index) : Dict.wf cats -> NoDup (sizes cats).
Proof.
  intros Hwf. apply (NoDup_map_inv fst).
  unfold sizes. rewrite map_map. exact Hwf.
Qed.

(** The sizes of the categories do not depend on the order of the words. *)
Lemma sizes_perm (d d' : dataset) :
  Permutation d d' ->
  Permutation (sizes (categories d)) (sizes (categories d')).
Proof.
  intros P.
  apply NoDup_Permutation; try (apply sizes_NoDup, categories_wf).
  intros [c n]. rewrite !In_sizes_categories, !categories_keys.
  assert (Hlen : length (listings c d) = length (listings c d')).
  { apply Permutation_length. unfold listings.
    now apply Permutation_flat_map. }
  rewrite Hlen. split; intros [(w & cs & Hin & Hc) Hn]; split; try assumption.
  - exists w, cs. split; [|exact Hc]. now apply (Permutation_in _ P).
  - exists w, cs. split; [|exact Hc].
    now apply (Permutation_in _ (Permutation_sym P)).
Qed.

Lemma perm_forallb (A : Type) (f : A -> bool) (l l' : list A) :
  Permutation l l' -> forallb f l = forallb f l'.
Proof.
  induction 1 as [|x l l' _ IH|x y l|l l' l'' _ IH1 _ IH2]; simpl.
  - reflexivity.
  - now rewrite IH.
  - destruct (f x), (f y); reflexivity.
  - congruence.
Qed.

(** The words of a category are the same in another order. *)
Lemma index_item_perm (d d' : dataset) c words' :
  Permutation d d' -> In (c, words') (categories d') ->
  exists words, In (c, words) (categories d) /\ Permutation words words'.
Proof.
  intros P Hin.
  assert (Hk : In c (Dict.keys (categories d))).
  { apply categories_keys.
    assert (Hk' : In c (Dict.keys (categories d')))
      by (change c with (fst (c, words')); now apply in_map).
    apply categories_keys in Hk' as (w0 & cs & H0 & Hc).
    exists w0, cs. split; [|exact Hc].
    now apply (Permutation_in _ (Permutation_sym P)). }
  apply Dict_In_get in Hin; [|apply categories_wf].
  pose proof (categories_lookup d' c) as L'. unfold lookup in L'.
  rewrite Hin in L'. subst words'.
  destruct (Dict.get (categories d) c) as [words|] eqn:G.
  - exists words. split; [now apply Dict_get_In|].
    pose proof (categories_lookup d c) as L. unfold lookup in L.
    rewrite G in L. subst words. unfold listings.
    now apply Permutation_flat_map.
  - apply Dict_get_None in G. contradiction.
Qed.

Lemma lines_encodable_spec (words_data : dataset) :
  lines_encodable words_data = true
  <-> forall c words,
        In (c, words) (categories words_data) -> is_small c words = true ->
        encodable c = true /\ forallb encodable words = true.
Proof.
  rewrite lines_encodable_thin, forallb_forall. split.
  - intros H c words Hin Hs. apply andb_true_iff.
    apply (H (c, words)). apply thin_categories_In. now split.
  - intros H [c words] Hin. apply thin_categories_In in Hin as [Hin Hs].
    cbn [fst snd]. apply andb_true_iff. now apply H.
Qed.

Lemma lines_encodable_perm_true (d d' : dataset) :
  Permutation d d' -> lines_encodable d = true -> lines_encodable d' = true.
Proof.
  intros P H. rewrite lines_encodable_spec in *. intros c words' Hin Hs.
  destruct (@index_item_perm d d' c words' P Hin) as (words & Hin0 & Pw).
  assert (Hs0 : is_small c words = true).
  { unfold is_small in *. now rewrite (Permutation_length Pw). }
  destruct (H _ _ Hin0 Hs0) as [Hc Hw]. split; [exact Hc|].
  now rewrite <- (@perm_forallb _ encodable _ _ Pw).
Qed.

Lemma lines_encodable_perm (d d' : dataset) :
  Permutation d d' -> lines_encodable d = lines_encodable d'.
Proof.
  intros P.
  destruct (lines_encodable d) eqn:E, (lines_encodable d') eqn:E';
    try reflexivity.
  - rewrite (@lines_encodable_perm_true d d' P E) in E'. discriminate.
  - rewrite (@lines_encodable_perm_true d' d (Permutation_sym P) E') in E.
    discriminate.
Qed.

(** X14 (order of the words).  Listing the words of the dataset in another
    order changes neither the total, the usable nor the thin count of the
    summary, nor whether the run returns or raises. *)
Theorem counts_ignore_word_order (d d' : dataset) (w w' : world) :
  Permutation d d' ->
  total_categories d = total_categories d'
  /\ usable_categories d = usable_categories d'
  /\ length (sorted_small_categories d) = length (sorted_small_categories d')
  /\ fst (analyze_categories d w) = fst (analyze_categories d' w').
Proof.
  intros P. pose proof (sizes_perm P) as S.
  assert (Ht : total_categories d = total_categories d').
  { unfold total_categories. rewrite !total_of_sizes.
    now apply perm_filter_length. }
  split; [exact Ht|]. split; [|split].
  - unfold usable_categories. rewrite !usable_of_sizes.
    rewrite (perm_existsb _ S), (perm_filter_length _ S). reflexivity.
  - unfold sorted_small_categories, small_categories.
    rewrite !(Permutation_length (sorted_perm _ _)).
    rewrite !small_of_sizes by apply categories_wf.
    now apply perm_filter_length.
  - rewrite !analyze_categories_result. unfold outcome.
    now rewrite Ht, (@lines_encodable_perm d d' P).
Qed.

Lemma counts_ignore_word_order_witness :
  Permutation scenario (rev scenario)
  /\ total_categories scenario = total_categories (rev scenario)
  /\ usable_categories scenario = usable_categories (rev scenario)
  /\ length (sorted_small_categories scenario)
     = length (sorted_small_categories (rev scenario))
  /\ fst (analyze_categories scenario no_world)
     = fst (analyze_categories (rev scenario) used_world).
Proof.
  assert (P : Permutation scenario (rev scenario)) by apply Permutation_rev.
  split; [exact P|].
  exact (@counts_ignore_word_order scenario (rev scenario) no_world used_world P).
Defined.

(** ** The order of the output *)

(** X15 (the order is determined).  A sequence of the categories kept by the
    filter in which sizes never decrease and categories of one size come in
    the order of the index is the thin-categories result: the two rules fix
    the order of the output completely. *)
Theorem thin_order_determined (words_data : dataset)
                              (l : list (str * list str)) :
  StronglySorted (key_le by_size) l ->
  (forall n,
     filter (has_key by_size n) l
     = filter (has_key by_size n)
              (filter small_item (categories words_data))) ->
  l = thin_categories words_data.
Proof.
  intros Hs Hf. rewrite thin_categories_sorted.
  unfold sorted_small_categories. rewrite small_categories_filter.
  now apply sorted_unique.
Qed.

Lemma thin_order_determined_witness :
  StronglySorted (key_le by_size) scenario_thin
  /\ (forall n,
        filter (has_key by_size n) scenario_thin
        = filter (has_key by_size n) (filter small_item (categories scenario)))
  /\ scenario_thin = thin_categories scenario.
Proof.
  assert (Hs : StronglySorted (key_le by_size) scenario_thin).
  { repeat constructor; unfold key_le, by_size; simpl; lia. }
  assert (Hf : forall n,
             filter (has_key by_size n) scenario_thin
             = filter (has_key by_size n)
                      (filter small_item (categories scenario))).
  { intros n. destruct n as [|[|[|n]]]; reflexivity. }
  repeat (split; [assumption|]).
  exact (@thin_order_determined scenario scenario_thin Hs Hf).
Defined.

(** ** The text of the output file *)

Lemma hex_digit_char x : is_file_char (hex_digit x) = true.
Proof.
  unfold hex_digit.
  destruct (nth_in_or_default (N.to_nat x) (py "0123456789abcdef") 48%N)
    as [Hin| ->]; [|reflexivity].
  revert Hin. generalize (nth (N.to_nat x) (py "0123456789abcdef") 48%N).
  apply forallb_forall. reflexivity.
Qed.

Lemma u_escape_chars n : forallb is_file_char (u_escape n) = true.
Proof.
  unfold u_escape. cbn [forallb]. rewrite !hex_digit_char. reflexivity.
Qed.

Lemma escape_char_chars c : forallb is_file_char (escape_char c) = true.
Proof.
  destruct (escape_char_cases c)
    as [(-> & _ & _ & Hlo & Hhi)|[(e & -> & _ & Hun)|[(-> & _)|(-> & _)]]].
  - cbn [forallb]. unfold is_file_char.
    rewrite (proj2 (N.leb_le _ _) Hlo), (proj2 (N.leb_le _ _) Hhi).
    now rewrite orb_true_r.
  - revert Hun. unfold unescape, QUOTE, BACKSLASH.
    repeat ntest; try discriminate; subst e; reflexivity.
  - apply u_escape_chars.
  - rewrite forallb_app, !u_escape_chars. reflexivity.
Qed.

Lemma forallb_flat_map (A B : Type) (f : B -> bool) (g : A -> list B) l :
  (forall x, forallb f (g x) = true) -> forallb f (flat_map g l) = true.
Proof.
  intros H. induction l as [|x l IH]; [reflexivity|].
  simpl. now rewrite forallb_app, H, IH.
Qed.

Lemma forallb_join (f : N -> bool) sep (l : list str) :
  forallb f sep = true ->
  (forall x, In x l -> forallb f x = true) ->
  forallb f (join sep l) = true.
Proof.
  intros Hsep. induction l as [|x l IH]; intros H; [reflexivity|].
  destruct l as [|y l].
  - apply H. now left.
  - change (join sep (x :: y :: l)) with (x ++ sep ++ join sep (y :: l)).
    rewrite !forallb_app, Hsep, (H x) by now left.
    rewrite IH; [reflexivity|]. intros z Hz. apply H. now right.
Qed.

Lemma encode_basestring_ascii_chars s :
  forallb is_file_char (encode_basestring_ascii s) = true.
Proof.
  unfold encode_basestring_ascii. rewrite !forallb_app.
  rewrite forallb_flat_map by apply escape_char_chars. reflexivity.
Qed.

Lemma newline_indent_chars level :
  forallb is_file_char (newline_indent level) = true.
Proof.
  unfold newline_indent. cbn [app forallb].
  induction level as [|level IH]; [reflexivity | exact IH].
Qed.

Lemma separator_chars level :
  forallb is_file_char (py "," ++ newline_indent level) = true.
Proof. rewrite forallb_app, newline_indent_chars. reflexivity. Qed.

Lemma iterencode_list_chars lst level :
  forallb is_file_char (iterencode_list lst level) = true.
Proof.
  destruct lst as [|w lst]; [reflexivity|].
  unfold iterencode_list. rewrite !forallb_app, !newline_indent_chars.
  rewrite forallb_join; [reflexivity | apply separator_chars |].
  intros x Hx. apply in_map_iff in Hx as (y & <- & _).
  apply encode_basestring_ascii_chars.
Qed.

(** X16 (an ASCII file).  Whatever the words and the categories, the JSON
    text of the thin categories is made of line feeds and printable ASCII
    characters only: every other character is written as an escape.  So the
    run, unless [print] raised before the write, leaves such a text in
    data/thin_categories.json. *)
Theorem output_file_is_ascii (words_data : dataset) (w : world) :
  forallb is_file_char (json_dumps (thin_categories words_data)) = true
  /\ (fst (analyze_categories words_data w) <> Raised UnicodeEncodeError ->
      exists content,
        Dict.get (files (snd (analyze_categories words_data w))) thin_path
        = Some content
        /\ forallb is_file_char content = true).
Proof.
  assert (Hascii : forall dct : index,
             forallb is_file_char (json_dumps dct) = true).
  { intros dct. unfold json_dumps.
    destruct dct as [|item dct]; [reflexivity|].
    unfold iterencode_dict. rewrite !forallb_app, !newline_indent_chars.
    rewrite forallb_join; [reflexivity | apply separator_chars |].
    intros x Hx. apply in_map_iff in Hx as (y & <- & _).
    rewrite !forallb_app, encode_basestring_ascii_chars, iterencode_list_chars.
    reflexivity. }
  split; [apply Hascii|].
  rewrite analyze_categories_result, analyze_categories_file. unfold outcome.
  destruct (lines_encodable words_data); [|congruence].
  intros _. eexists. split; [reflexivity | apply Hascii].
Qed.

(** ** The dataset as loaded *)

(** X17 (the loaded dataset).  A dataset the decoder returns on a text of
    Unicode scalar values has no word twice (a word given twice keeps its
    first place and its last list), and encoding it and decoding the result
    gives it back. *)
Theorem loaded_dataset_reloads (text : str) (words_data : dataset) :
  forallb is_scalar text = true ->
  json_loads text = Some words_data ->
  NoDup (Dict.keys words_data)
  /\ json_loads (json_dumps words_data) = Some words_data.
Proof.
  intros Hsc Hload.
  destruct (json_loads_sound _ Hsc Hload) as [Hwf Hok].
  split; [exact Hwf | now apply json_round_trip].
Qed.

Lemma loaded_dataset_reloads_witness :
  forallb is_scalar twice_text = true
  /\ json_loads twice_text
     = Some [ (py "a", [[120; 233; 10]%N]); (py "b", [py "y"]) ]
  /\ NoDup (Dict.keys [ (py "a", [[120; 233; 10]%N]); (py "b", [py "y"]) ])
  /\ json_loads (json_dumps [ (py "a", [[120; 233; 10]%N]); (py "b", [py "y"]) ])
     = Some [ (py "a", [[120; 233; 10]%N]); (py "b", [py "y"]) ].
Proof.
  assert (Hsc : forallb is_scalar twice_text = true)
    by (vm_compute; reflexivity).
  assert (Hload : json_loads twice_text
                  = Some [ (py "a", [[120; 233; 10]%N]); (py "b", [py "y"]) ])
    by (vm_compute; reflexivity).
  repeat (split; [assumption|]).
  exact (@loaded_dataset_reloads twice_text _ Hsc Hload).
Defined.

(** ** A dataset that grows *)

Lemma categories_app (d1 d2 : dataset) :
  categories (d1 ++ d2) = fold_left add_word d2 (categories d1).
Proof. now rewrite !categories_fold, fold_left_app. Qed.

(** X18 (more words never make a category thin).  A category for which the
    index of a dataset holds four words or more is no key of the
    thin-categories result of that dataset followed by further words. *)
Theorem growth_keeps_usable (d1 d2 : dataset) (c : str) :
  4 <= length (lookup (categories d1) c) ->
  ~ In c (Dict.keys (thin_categories (d1 ++ d2))).
Proof.
  intros Hlen Hin.
  apply in_map_iff in Hin as ([c' words] & E & Hin). cbn [fst] in E. subst c'.
  apply thin_categories_In in Hin as [Hin Hsmall].
  apply is_small_spec in Hsmall as (Hshort & _).
  apply Dict_In_get in Hin; [|apply categories_wf].
  pose proof (categories_lookup (d1 ++ d2) c) as L.
  unfold lookup at 1 in L. rewrite Hin in L.
  rewrite categories_lookup in Hlen.
  unfold listings in L. rewrite flat_map_app in L. fold (listings c d1) in L.
  subst words. rewrite length_app in Hshort. lia.
Qed.

Lemma growth_keeps_usable_witness :
  4 <= length (lookup (categories four_and_reserved) (py "X"))
  /\ ~ In (py "X") (Dict.keys (thin_categories (four_and_reserved ++ scenario))).
Proof.
  assert (H : 4 <= length (lookup (categories four_and_reserved) (py "X")))
    by (vm_compute; lia).
  split; [exact H|].
  exact (@growth_keeps_usable four_and_reserved scenario (py "X") H).
Defined.

(** X19 (more words never bring the division by zero).  The total count of
    a dataset followed by further words is at least the total count of the
    dataset, so when the run on the dataset does not raise
    [ZeroDivisionError], neither does the run on the longer dataset. *)
Theorem growth_keeps_total (d1 d2 : dataset) (w w' : world) :
  total_categories d1 <= total_categories (d1 ++ d2)
  /\ (fst (analyze_categories d1 w) <> Raised ZeroDivisionError ->
      fst (analyze_categories (d1 ++ d2) w') <> Raised ZeroDivisionError).
Proof.
  assert (Hle : total_categories d1 <= total_categories (d1 ++ d2)).
  { unfold total_categories, total_of.
    rewrite categories_app, keys_fold_add_word. unfold absorb.
    rewrite filter_app, length_app. lia. }
  split; [exact Hle|].
  rewrite !analyze_categories_result. unfold outcome.
  destruct (Nat.eqb_spec (total_categories (d1 ++ d2)) 0) as [E'|E'].
  - assert (E : total_categories d1 = 0) by lia.
    assert (Hl : lines_encodable d1 = true).
    { unfold lines_encodable. now rewrite no_total_no_thin. }
    rewrite Hl, E. intros H. now contradiction H.
  - intros _. destruct (lines_encodable (d1 ++ d2)); discriminate.
Qed.
